(** * BeyondConversation: relay and capture pipeline

    A shallow embedding of the two source files of the repository:

    - the browser page ([src/app/page.tsx]): [smoothInterim],
      [floatToPCM16], [base64FromPCM16], [downsampleTo24kHz] and the
      audio-worklet message handler that accumulates samples;
    - the relay server ([src/unnamed/part_000]): the two module-level
      counters, the per-connection closures [client.on('message')] and
      [openai.on('message')].

    The WebSocket implementations (the browser's, and the [ws] package
    of the relay) are not part of the repository: of a socket the
    embedding keeps the [readyState] and what [send] does in each
    state.

    Part I holds the definitions, Part II and Part III the theorems. *)

From Stdlib Require Import ZArith NArith List Bool Lia String Ascii.
From Stdlib Require Import Floats.SpecFloat.
From stdpp Require Import base list gmap fin_maps.

Set Warnings "-register-all,-abstract-large-number".

Local Open Scope Z_scope.

(* ================================================================== *)
(** * Part I: definitions                                               *)
(* ================================================================== *)

(** ** JavaScript strings and values *)

Module JS.

(** A JavaScript string is a sequence of UTF-16 code units. *)
Abbreviation jsstring := (list N).

(** A string literal of the source, as code units. *)
Definition js (s : string) : jsstring :=
  map N_of_ascii (list_ascii_of_string s).

Definition str_eqb (a b : jsstring) : bool := bool_decide (a = b).

(** [WhiteSpace] and [LineTerminator] code units, the ones
    [String.prototype.trim] strips. *)
Definition is_ws (c : N) : bool :=
  ((9 <=? c) && (c <=? 13) || (c =? 32) || (c =? 160) || (c =? 5760)
   || ((8192 <=? c) && (c <=? 8202)) || (c =? 8232) || (c =? 8233)
   || (c =? 8239) || (c =? 8287) || (c =? 12288) || (c =? 65279))%N.

Fixpoint trimStart (s : jsstring) : jsstring :=
  match s with
  | c :: s' => if is_ws c then trimStart s' else s
  | [] => []
  end.

Definition trimEnd (s : jsstring) : jsstring := rev (trimStart (rev s)).

(** [s.trim()] *)
Definition trim (s : jsstring) : jsstring := trimEnd (trimStart s).

(** [s.startsWith(p)] *)
Fixpoint startsWith (s p : jsstring) {struct p} : bool :=
  match p, s with
  | [], _ => true
  | _ :: _, [] => false
  | b :: p', a :: s' => (a =? b)%N && startsWith s' p'
  end.

(** [s.split(sep)] for a one-code-unit separator: never the empty list. *)
Fixpoint split (sep : N) (s : jsstring) : list jsstring :=
  match s with
  | [] => [[]]
  | c :: s' =>
      if (c =? sep)%N then [] :: split sep s'
      else match split sep s' with
           | l :: ls => (c :: l) :: ls
           | [] => [[c]]
           end
  end.

(** [xs.join(sep)] on strings. *)
Fixpoint join (sep : jsstring) (xs : list jsstring) : jsstring :=
  match xs with
  | [] => []
  | [x] => x
  | x :: xs' => x ++ sep ++ join sep xs'
  end.

(** [readyState] of a WebSocket, in the browser and in the [ws] package
    of the relay.  [send] throws while the socket is [CONNECTING], hands
    the message to the transport when it is [OPEN], and returns without
    sending anything once it is [CLOSING] or [CLOSED]. *)
Inductive readyState := CONNECTING | OPEN | CLOSING | CLOSED.

(** [close()] on a socket in the state [r]: it leaves [CONNECTING] and
    [OPEN] for [CLOSING]. *)
Definition closing (r : readyState) : readyState :=
  match r with
  | CLOSED => CLOSED
  | _ => CLOSING
  end.

End JS.

(** ** JavaScript numbers

    Every number of the page is an IEEE binary64 value, and the elements
    of a [Float32Array] are binary64 values that went through a rounding
    to binary32.  The functions of the page are written over this
    interface; [ieee] below implements it with the reference operations
    of the standard library, so that they run on concrete inputs. *)

Module Numeric.

Class JSNumber (T : Type) := {
  (** an integer literal, or an integer-valued number such as a count *)
  of_Z : Z → T;
  add : T → T → T;
  mul : T → T → T;
  div : T → T → T;
  (** [x < y] *)
  ltb : T → T → bool;
  Math_min : T → T → T;
  Math_max : T → T → T;
  (** the value an element of a [Float32Array] holds after [a[i] = x] *)
  fround : T → T;
  (** the integer part, toward zero; [0] for NaN and the infinities
      (the first steps of the conversion done by a store into an
      integer typed array) *)
  truncate : T → Z
}.

(** The value an element of an [Int16Array] holds after [a[i] = x]:
    truncation, then reduction modulo 2^16 into the signed range. *)
Definition wrap16 (z : Z) : Z := (z + 32768) mod 65536 - 32768.

Definition toInt16 `{JSNumber T} (x : T) : Z := wrap16 (truncate x).

(** *** The IEEE instance *)

Definition b64_round (s : bool) (m : positive) (e : Z) : spec_float :=
  binary_normalize 53 1024 (cond_Zopp s (Zpos m)) e s.

Definition b32_round (s : bool) (m : positive) (e : Z) : spec_float :=
  binary_normalize 24 128 (cond_Zopp s (Zpos m)) e s.

(** Rounding to binary32, the result written back in the canonical
    binary64 form (every binary32 value is a binary64 value). *)
Definition ieee_fround (x : spec_float) : spec_float :=
  match x with
  | S754_finite s m e =>
      match b32_round s m e with
      | S754_finite s' m' e' => b64_round s' m' e'
      | y => y
      end
  | _ => x
  end.

Definition ieee_min (x y : spec_float) : spec_float :=
  match SFcompare x y with
  | None => S754_nan
  | Some Lt => x
  | Some Gt => y
  | Some Eq =>
      match x, y with
      | S754_zero sx, S754_zero sy => S754_zero (sx || sy)
      | _, _ => x
      end
  end.

Definition ieee_max (x y : spec_float) : spec_float :=
  match SFcompare x y with
  | None => S754_nan
  | Some Lt => y
  | Some Gt => x
  | Some Eq =>
      match x, y with
      | S754_zero sx, S754_zero sy => S754_zero (sx && sy)
      | _, _ => x
      end
  end.

Definition ieee_truncate (x : spec_float) : Z :=
  match x with
  | S754_finite s m e =>
      cond_Zopp s (match e with
                   | Zneg k => Z.shiftr (Zpos m) (Zpos k)
                   | _ => Z.shiftl (Zpos m) e
                   end)
  | _ => 0
  end.

#[export] Instance ieee : JSNumber spec_float := {|
  of_Z z := binary_normalize 53 1024 z 0 false;
  add := SFadd 53 1024;
  mul := SFmul 53 1024;
  div := SFdiv 53 1024;
  ltb := SFltb;
  Math_min := ieee_min;
  Math_max := ieee_max;
  fround := ieee_fround;
  truncate := ieee_truncate
|}.

End Numeric.

(** ** The page ([src/app/page.tsx]) *)

Module Page.
Import JS Numeric.

(** [smoothInterim(prevInterim, nextInterim)], page.tsx lines 39-44.
    [!s] on a string is true exactly for the empty string. *)
Definition smoothInterim (prevInterim nextInterim : jsstring) : jsstring :=
  match prevInterim with
  | [] => nextInterim
  | _ =>
    match nextInterim with
    | [] => []
    | _ =>
      if startsWith prevInterim nextInterim
         && (length nextInterim <? length prevInterim)%nat
      then prevInterim
      else nextInterim
    end
  end.

(** What the specification calls a strict extension: [next] is a prefix
    of [prev] and is shorter. *)
Definition proper_prefix (next prev : jsstring) : Prop :=
  ∃ rest, rest ≠ [] ∧ prev = next ++ rest.

(** A [for (let i = 0; i < n; i++) body] loop over a state. *)
Definition for_range {S : Type} (n : nat) (body : nat → S → S) (s : S) : S :=
  fold_left (λ s i, body i s) (seq 0 n) s.

Section Audio.
Context {T : Type} `{JSNumber T}.

(** The right-hand side of [out[i] = ...] in [floatToPCM16], before the
    store converts it: lines 50-51. *)
Definition scaled (x : T) : T :=
  let s := Math_max (of_Z (-1)) (Math_min (of_Z 1) x) in
  if ltb s (of_Z 0) then mul s (of_Z 32768) else mul s (of_Z 32767).

(** [floatToPCM16(f32)], lines 47-54.  [new Int16Array(n)] is [n] zeros;
    a typed array ignores a store out of range, as the list update does. *)
Definition floatToPCM16 (f32 : list T) : list Z :=
  for_range (length f32)
    (λ i out, match f32 !! i with
              | Some x => <[i := toInt16 (scaled x)]> out
              | None => out
              end)
    (replicate (length f32) 0).

(** [downsampleTo24kHz(samples, srcRate)], lines 65-83.

    [srcRate] is an integer number of hertz.  [ratio = srcRate / 24000]
    is kept as the exact quotient: [acc < (i + 1) * ratio] is decided as
    [acc * 24000 < (i + 1) * srcRate] and [Math.floor(length / ratio)] as
    [length * 24000 / srcRate].  This is what the binary64 operations
    of the code compute, on arrays of any length a typed array can have,
    whenever the quotient is exact in binary64, as it is for 48000
    (ratio 2), 96000, 12000 and the like; at other rates the code rounds
    the ratio and the products, and the model does not.

    The inner [while] reads [samples[idx++]] while [idx < samples.length]:
    the model keeps the samples from [idx] on instead of [idx]. *)
Fixpoint take_span (srcRate bound : Z) (acc : Z) (rest : list T)
    (sum : T) (count : Z) : Z * list T * T * Z :=
  match rest with
  | x :: rest' =>
      if acc * 24000 <? bound * srcRate
      then take_span srcRate bound (acc + 1) rest' (add sum x) (count + 1)
      else (acc, rest, sum, count)
  | [] => (acc, rest, sum, count)
  end.

Record resampler := {
  rs_acc : Z;            (* [acc] *)
  rs_rest : list T;      (* the samples from [idx] on *)
  rs_out : list T        (* [out] *)
}.

Definition downsample_step (srcRate : Z) (i : nat) (st : resampler) : resampler :=
  let '(acc, rest, sum, count) :=
    take_span srcRate (Z.of_nat i + 1) (rs_acc st) (rs_rest st) (of_Z 0) 0 in
  {| rs_acc := acc;
     rs_rest := rest;
     rs_out := <[i := fround (if count =? 0 then of_Z 0
                              else div sum (of_Z count))]> (rs_out st) |}.

(** [None] is the [RangeError] of [new Float32Array(newLen)] when
    [newLen] is negative or infinite, which a source rate that is not
    positive gives on a non-empty input. *)
Definition downsampleTo24kHz (samples : list T) (srcRate : Z) : option (list T) :=
  if srcRate =? 24000 then Some samples
  else if srcRate <=? 0 then
    match samples with [] => Some [] | _ => None end
  else
    let newLen := Z.to_nat (Z.of_nat (length samples) * 24000 / srcRate) in
    Some (rs_out (for_range newLen (downsample_step srcRate)
                    {| rs_acc := 0; rs_rest := samples;
                       rs_out := replicate newLen (of_Z 0) |})).

(** The box filter at twice the target rate, as the specification words
    it: each output sample is the average of the two source samples of
    its span, computed as the loop does ([sum] starts at [0]). *)
Definition average2 (a b : T) : T :=
  fround (div (add (add (of_Z 0) a) b) (of_Z 2)).

Fixpoint average_pairs (samples : list T) : list T :=
  match samples with
  | a :: b :: rest => average2 a b :: average_pairs rest
  | _ => []
  end.

(** The input of the page's self-test, line 433: 48000 samples, all
    zero but the first, which is [1]. *)
Definition impulse : list T := of_Z 1 :: replicate (Z.to_nat 47999) (of_Z 0).

End Audio.

(** [base64FromPCM16(i16)], lines 56-62.  [new Uint8Array(i16.buffer)]
    views each element as two bytes, low byte first on the little-endian
    hosts browsers run on. *)
Definition bytes_of_int16 (z : Z) : list N :=
  let u := z mod 65536 in [Z.to_N (u mod 256); Z.to_N (u / 256)].

Definition b64_digit (n : N) : N :=
  (if n <? 26 then 65 + n
   else if n <? 52 then 97 + (n - 26)
   else if n <? 62 then 48 + (n - 52)
   else if n =? 62 then 43 else 47)%N.

(** [btoa] of the browser, on a string of code units below 256. *)
Fixpoint btoa (bin : jsstring) : jsstring :=
  match bin with
  | [] => []
  | [a] =>
      [b64_digit (N.shiftr a 2); b64_digit (N.shiftl (N.land a 3) 4);
       61; 61]%N
  | [a; b] =>
      [b64_digit (N.shiftr a 2);
       b64_digit (N.lor (N.shiftl (N.land a 3) 4) (N.shiftr b 4));
       b64_digit (N.shiftl (N.land b 15) 2); 61]%N
  | a :: b :: c :: rest =>
      [b64_digit (N.shiftr a 2);
       b64_digit (N.lor (N.shiftl (N.land a 3) 4) (N.shiftr b 4));
       b64_digit (N.lor (N.shiftl (N.land b 15) 2) (N.shiftr c 6));
       b64_digit (N.land c 63)]%N ++ btoa rest
  end.

Definition base64FromPCM16 (i16 : list Z) : jsstring :=
  let buf := concat (map bytes_of_int16 i16) in
  let bin := for_range (length buf)
               (λ i bin, match buf !! i with
                         | Some b => bin ++ [b]   (* String.fromCharCode *)
                         | None => bin
                         end) [] in
  btoa bin.

(** *** The sample accumulator: [node.port.onmessage], lines 348-372 *)

(** [e.data]: a ['samples'] message of the worklet, or anything else. *)
Inductive worklet_data (T : Type) :=
  | Samples (buffer : list T)
  | OtherData.
Arguments Samples {T} buffer.
Arguments OtherData {T}.

(** What the page hands to [ws.send]:
    [{ type: 'client.audio.append', audio }], serialised. *)
Inductive upload := ClientAudioAppend (audio : jsstring).

(** The refs the handler reads and writes.  [wsRef] holds the messages
    the socket has taken for sending so far, [None] when there is no
    socket, and [ws_readyState] is [wsRef.current.readyState], which the
    browser changes between two calls of the handler. *)
Record capture (T : Type) := {
  pendingSamplesRef : option (list T);
  sampleRateRef : Z;
  wsRef : option (list upload);
  ws_readyState : readyState
}.
Arguments pendingSamplesRef {T} c.
Arguments sampleRateRef {T} c.
Arguments wsRef {T} c.
Arguments ws_readyState {T} c.

Definition THRESHOLD_SAMPLES_24K : nat := 2400.

Section Accumulator.
Context {T : Type} `{JSNumber T}.

(** [pendingSamplesRef.current] after the "append to pending" block. *)
Definition appended (prev : option (list T)) (down : list T) : list T :=
  match prev with
  | Some prev => if (0 <? length prev)%nat then prev ++ down else down
  | None => down
  end.

(** [wsRef.current?.send(m)], line 369: the socket after the call, or
    [None] for the [InvalidStateError] a browser socket throws while it
    is connecting.  Without a socket [?.] skips the call. *)
Definition ws_send (m : upload) (st : capture T) : option (option (list upload)) :=
  match wsRef st with
  | None => Some None
  | Some sent =>
      match ws_readyState st with
      | CONNECTING => None
      | OPEN => Some (Some (sent ++ [m]))
      | CLOSING | CLOSED => Some (Some sent)
      end
  end.

(** The handler is not wrapped in a [try]: an exception ends it where it
    is thrown.  The resampler throws before any store; [send] throws
    after the merged buffer was stored and before it is cleared. *)
Definition port_onmessage (e : worklet_data T) (st : capture T) : capture T :=
  match e with
  | OtherData => st
  | Samples f32 =>
    match downsampleTo24kHz f32 (sampleRateRef st) with
    | None => st
    | Some down =>
      let buf := appended (pendingSamplesRef st) down in
      if (THRESHOLD_SAMPLES_24K <=? length buf)%nat then
        let i16 := floatToPCM16 down in
        let b64 := base64FromPCM16 i16 in
        match ws_send (ClientAudioAppend b64) st with
        | Some ws =>
            {| pendingSamplesRef := None;
               sampleRateRef := sampleRateRef st;
               wsRef := ws;
               ws_readyState := ws_readyState st |}
        | None =>
            {| pendingSamplesRef := Some buf;
               sampleRateRef := sampleRateRef st;
               wsRef := wsRef st;
               ws_readyState := ws_readyState st |}
        end
      else
        {| pendingSamplesRef := Some buf;
           sampleRateRef := sampleRateRef st;
           wsRef := wsRef st;
           ws_readyState := ws_readyState st |}
    end
  end.

(** The handler run on a sequence of worklet messages, in arrival
    order, the socket staying as it is in between. *)
Definition capture_run (es : list (worklet_data T)) (st : capture T) : capture T :=
  fold_left (λ st e, port_onmessage e st) es st.

End Accumulator.

(** A capture at 48 kHz, as the audio worklet delivers it: blocks of 128
    samples.  Thirty-seven blocks at full scale, then one of silence. *)
Definition loud_block : worklet_data spec_float :=
  Samples (replicate 128 (of_Z 1)).

Definition quiet_block : worklet_data spec_float :=
  Samples (replicate 128 (of_Z 0)).

(** The refs when the capture begins, the socket open. *)
Definition capture_start : capture spec_float :=
  {| pendingSamplesRef := None; sampleRateRef := 48000; wsRef := Some [];
     ws_readyState := OPEN |}.

(** The same capture begun while the socket is still connecting:
    [start] waits 150 ms for the socket, lines 315-316, and goes on
    whatever its state. *)
Definition capture_start_connecting : capture spec_float :=
  {| pendingSamplesRef := None; sampleRateRef := 48000; wsRef := Some [];
     ws_readyState := CONNECTING |}.

(** *** The rest of the page's pure functions *)

(** [composeTranscript(finals, interim)], lines 33-36.  [base && interim]
    is truthy exactly when both strings are non-empty. *)
Definition composeTranscript (finals : list jsstring) (interim : jsstring)
    : jsstring :=
  let base := trim (join (js " ") finals) in
  trim (base
        ++ (if negb (str_eqb base []) && negb (str_eqb interim [])
            then js " " else [])
        ++ interim).

(** The characters [btoa] can produce: letters, digits, [+], [/], [=]. *)
Definition base64_char (c : N) : bool :=
  ((65 <=? c) && (c <=? 90) || (97 <=? c) && (c <=? 122)
   || (48 <=? c) && (c <=? 57) || (c =? 43) || (c =? 47) || (c =? 61))%N.

Section AudioShapes.
Context {T : Type} `{JSNumber T}.

(** The mean of the [k] source samples of the span of output [i], as the
    loop of [downsampleTo24kHz] computes it: the sum starts at [0] and
    takes the samples in order, then is divided by their number. *)
Definition span_mean (k i : nat) (samples : list T) : T :=
  fround (div (fold_left add (take k (drop (k * i) samples)) (of_Z 0))
              (of_Z (Z.of_nat k))).

(** Each sample followed by a zero: what the loop gives at half the
    target rate, where every second span holds no source sample. *)
Definition zero_stuffed (samples : list T) : list T :=
  flat_map (λ x, [fround (div (add (of_Z 0) x) (of_Z 1)); fround (of_Z 0)])
    samples.

(** The pending buffer is below the threshold, or there is none. *)
Definition pending_below_threshold (st : capture T) : Prop :=
  match pendingSamplesRef st with
  | Some buf => (length buf < THRESHOLD_SAMPLES_24K)%nat
  | None => True
  end.

(** [send] on the socket of the capture returns: there is no socket, or
    it is not connecting. *)
Definition send_returns (st : capture T) : Prop :=
  wsRef st = None ∨ ws_readyState st ≠ CONNECTING.

(** The chunk a worklet message adds to the pending buffer, at the rate
    [rate]: nothing for a message that is not ['samples'] or that makes
    the resampler throw. *)
Definition resampled (rate : Z) (e : worklet_data T) : list T :=
  match e with
  | Samples f32 => default [] (downsampleTo24kHz f32 rate)
  | OtherData => []
  end.

(** [u] is the frame made from the resampled chunk of one of the
    ['samples'] messages of [es], at the rate [rate]. *)
Definition frame_of_event (rate : Z) (es : list (worklet_data T))
    (u : upload) : Prop :=
  ∃ f32 down, Samples f32 ∈ es
              ∧ downsampleTo24kHz f32 rate = Some down
              ∧ u = ClientAudioAppend (base64FromPCM16 (floatToPCM16 down)).

End AudioShapes.

(** The inverse of the encoder, used to show that it loses nothing: the
    value of a base64 character, the bytes of a base64 text, and the
    16-bit samples of a little-endian byte sequence. *)
Definition b64_value (c : N) : N :=
  (if (65 <=? c) && (c <=? 90) then c - 65
   else if (97 <=? c) && (c <=? 122) then c - 97 + 26
   else if (48 <=? c) && (c <=? 57) then c - 48 + 52
   else if c =? 43 then 62 else 63)%N.

Fixpoint atob (text : jsstring) : list N :=
  match text with
  | c1 :: c2 :: c3 :: c4 :: rest =>
      let d1 := b64_value c1 in
      let d2 := b64_value c2 in
      let d3 := b64_value c3 in
      let d4 := b64_value c4 in
      let a := N.lor (N.shiftl d1 2) (N.shiftr d2 4) in
      let b := N.lor (N.shiftl (N.land d2 15) 4) (N.shiftr d3 2) in
      let c := N.lor (N.shiftl (N.land d3 3) 6) d4 in
      if (c3 =? 61)%N then [a]
      else if (c4 =? 61)%N then [a; b]
      else a :: b :: c :: atob rest
  | _ => []
  end.

Fixpoint samples_of_bytes (bytes : list N) : list Z :=
  match bytes with
  | lo :: hi :: rest =>
      wrap16 (Z.of_N lo + 256 * Z.of_N hi) :: samples_of_bytes rest
  | _ => []
  end.

(** The 256 byte values. *)
Definition all_bytes : list N := map N.of_nat (seq 0 256).

End Page.

(** ** The relay ([src/unnamed/part_000]) *)

Module Relay.
Import JS.

(** *** Values and the operations of the language the relay uses *)

(** The values [JSON.parse] returns, and [undefined], which a missing
    property reads as.  An object is the list of its own properties. *)
Inductive value (number : Type) :=
  | VUndefined
  | VNull
  | VBool (b : bool)
  | VNum (n : number)
  | VStr (s : jsstring)
  | VArr (elems : list (value number))
  | VObj (props : list (jsstring * value number)).
Arguments VUndefined {number}.
Arguments VNull {number}.
Arguments VBool {number} b.
Arguments VNum {number} n.
Arguments VStr {number} s.
Arguments VArr {number} elems.
Arguments VObj {number} props.

(** What the relay takes from the host: numbers are only tested for
    truth and printed, and text is parsed by [JSON.parse], [None] being
    its [SyntaxError]. *)
Class Runtime (number : Type) := {
  number_truthy : number → bool;
  number_toString : number → jsstring;
  JSON_parse : jsstring → option (value number)
}.

Section Language.
Context {number : Type} `{Runtime number}.

Abbreviation val := (value number).

(** [ToBoolean] *)
Definition truthy (v : val) : bool :=
  match v with
  | VUndefined | VNull => false
  | VBool b => b
  | VNum n => number_truthy n
  | VStr s => negb (str_eqb s [])
  | VArr _ | VObj _ => true
  end.

Fixpoint own (k : jsstring) (props : list (jsstring * val)) : option val :=
  match props with
  | [] => None
  | (k', v) :: props' => if str_eqb k' k then Some v else own k props'
  end.

(** [v.k] for one of the property names of the relay ([type], [text],
    [delta], ...), none of which a prototype defines, on a base that is
    neither [null] nor [undefined]; and [v?.k] on any base. *)
Definition prop (v : val) (k : string) : val :=
  match v with
  | VObj props => default VUndefined (own (js k) props)
  | _ => VUndefined
  end.

(** [v.k] on any base: [None] is the [TypeError] of reading a property
    of [null] or [undefined]. *)
Definition get (v : val) (k : string) : option val :=
  match v with
  | VUndefined | VNull => None
  | _ => Some (prop v k)
  end.

(** [v === 'lit'] *)
Definition equals (v : val) (lit : string) : bool :=
  match v with
  | VStr s => str_eqb s (js lit)
  | _ => false
  end.

(** [a || b] *)
Definition or_else (a b : val) : val := if truthy a then a else b.

(** [String(v)]: [None] is the [TypeError] of an object whose own
    [toString] property shadows the inherited method (a parsed property
    is never callable, and the inherited [valueOf] returns the object). *)
Fixpoint ToString (v : val) : option jsstring :=
  match v with
  | VUndefined => Some (js "undefined")
  | VNull => Some (js "null")
  | VBool b => Some (js (if b then "true" else "false"))
  | VNum n => Some (number_toString n)
  | VStr s => Some s
  | VArr elems =>
      (* [Array.prototype.join]: [null] and [undefined] print as '' *)
      let fix each (l : list val) : option (list jsstring) :=
        match l with
        | [] => Some []
        | x :: l' =>
            match (match x with
                   | VUndefined | VNull => Some []
                   | _ => ToString x
                   end) with
            | Some s => cons s <$> each l'
            | None => None
            end
        end in
      join (js ",") <$> each elems
  | VObj props =>
      match own (js "toString") props with
      | Some _ => None
      | None => Some (js "[object Object]")
      end
  end.

(** [xs.join(sep)] on values. *)
Fixpoint join_values (sep : jsstring) (xs : list val) : option jsstring :=
  match xs with
  | [] => Some []
  | x :: xs' =>
      match (match x with
             | VUndefined | VNull => Some []
             | _ => ToString x
             end) with
      | Some s =>
          match xs' with
          | [] => Some s
          | _ => (λ r, s ++ sep ++ r) <$> join_values sep xs'
          end
      | None => None
      end
  end.

End Language.

(** *** Messages *)

Inductive channel := interim | final.

(** Relay to browser: what is handed to [client.send], before
    [JSON.stringify]. *)
Inductive downstream (number : Type) :=
  | Transcript (ch : channel) (text : jsstring)  (* [{type:'transcript', channel, text}] *)
  | Pong (t : value number)                      (* [{type:'pong', t}] *)
  | StatusProviderError.                         (* [{type:'status', value:'provider-error'}] *)
Arguments Transcript {number} ch text.
Arguments Pong {number} t.
Arguments StatusProviderError {number}.

(** Relay to provider: what is handed to [openai.send]. *)
Inductive upstream (number : Type) :=
  | SessionUpdate (language : value number)  (* [{type:'session.update', session:{...language}}] *)
  | AudioAppend (audio : jsstring)           (* [{type:'input_audio_buffer.append', audio}] *)
  | AudioCommit                              (* [{type:'input_audio_buffer.commit'}] *)
  | ResponseCreate.                          (* [{type:'response.create', response:{modalities:['text'], conversation:null, ...}}] *)
Arguments SessionUpdate {number} language.
Arguments AudioAppend {number} audio.
Arguments AudioCommit {number}.
Arguments ResponseCreate {number}.

(** *** State *)

(** The two variables declared at module level, lines 23-24. *)
Record globals := {
  approxB64SinceCommit : Z;
  activeResponse : bool
}.

Definition MIN_B64_FOR_100MS : Z := 6400.

(** What one run of the [WSS.on('connection')] callback owns: its local
    [language], its two sockets.  Of the provider socket the relay sees
    the [readyState], which decides what [send] does, the messages
    [send] has handed to the transport, oldest first, and whether
    [close] was called.  The browser socket is open when the callback
    runs, so its [send] never throws: it is the list of the messages
    handed to [send], and whether [close] was called. *)
Record conn (number : Type) := {
  language : value number;
  openai_readyState : readyState;
  openai_sent : list (upstream number);
  client_sent : list (downstream number);
  openai_closed : bool;
  client_closed : bool
}.
Arguments language {number} c.
Arguments openai_readyState {number} c.
Arguments openai_sent {number} c.
Arguments client_sent {number} c.
Arguments openai_closed {number} c.
Arguments client_closed {number} c.

Section Handlers.
Context {number : Type} `{Runtime number}.

(** What the closures of one connection see: the module-level variables
    and the locals of their connection. *)
Definition scope : Type := globals * conn number.

Definition set_activeResponse (b : bool) (s : scope) : scope :=
  ({| approxB64SinceCommit := approxB64SinceCommit s.1; activeResponse := b |}, s.2).

Definition set_approxB64SinceCommit (n : Z) (s : scope) : scope :=
  ({| approxB64SinceCommit := n; activeResponse := activeResponse s.1 |}, s.2).

Definition set_language (v : value number) (s : scope) : scope :=
  (s.1, {| language := v;
           openai_readyState := openai_readyState s.2;
           openai_sent := openai_sent s.2;
           client_sent := client_sent s.2;
           openai_closed := openai_closed s.2;
           client_closed := client_closed s.2 |}).

(** The library moves the provider socket to the state [r]. *)
Definition set_openai_readyState (r : readyState) (s : scope) : scope :=
  (s.1, {| language := language s.2;
           openai_readyState := r;
           openai_sent := openai_sent s.2;
           client_sent := client_sent s.2;
           openai_closed := openai_closed s.2;
           client_closed := client_closed s.2 |}).

Definition client_send (m : downstream number) (s : scope) : scope :=
  (s.1, {| language := language s.2;
           openai_readyState := openai_readyState s.2;
           openai_sent := openai_sent s.2;
           client_sent := client_sent s.2 ++ [m];
           openai_closed := openai_closed s.2;
           client_closed := client_closed s.2 |}).

(** [closeAll], line 209 *)
Definition closeAll (s : scope) : scope :=
  (s.1, {| language := language s.2;
           openai_readyState := closing (openai_readyState s.2);
           openai_sent := openai_sent s.2;
           client_sent := client_sent s.2;
           openai_closed := true;
           client_closed := true |}).

(** How a sequence of statements is left: it falls through to the next
    statement, it executes [return], which leaves the whole handler, or
    it throws, which the enclosing [catch] takes. *)
Inductive completion := Normal | Return | Throw.

Definition step : Type := scope → completion * scope.

Definition skip : step := λ s, (Normal, s).
Definition return_ : step := λ s, (Return, s).
Definition throw : step := λ s, (Throw, s).
Definition exec (f : scope → scope) : step := λ s, (Normal, f s).

Definition then_ (a b : step) : step :=
  λ s, match a s with
       | (Normal, s') => b s'
       | r => r
       end.
Notation "a >> b" := (then_ a b) (at level 62, right associativity).

Definition when (b : bool) (a : step) : step := if b then a else skip.

(** A statement that reads a variable: [k] gets its current value. *)
Definition read {A : Type} (var : scope → A) (k : A → step) : step :=
  λ s, k (var s) s.

(** [try { a } catch {}] *)
Definition try_ (a : step) : step :=
  λ s, match a s with
       | (Throw, s') => (Normal, s')
       | r => r
       end.

(** [openai.send(m)], of the [ws] package that exports the
    [WebSocketServer] of line 12: it throws while the socket is
    connecting, and after [close] it returns without sending. *)
Definition openai_send (m : upstream number) : step :=
  λ s, match openai_readyState s.2 with
       | CONNECTING => (Throw, s)
       | OPEN =>
           (Normal,
            (s.1, {| language := language s.2;
                     openai_readyState := openai_readyState s.2;
                     openai_sent := openai_sent s.2 ++ [m];
                     client_sent := client_sent s.2;
                     openai_closed := openai_closed s.2;
                     client_closed := client_closed s.2 |}))
       | CLOSING | CLOSED => (Normal, s)
       end.

(** [openai.on('open')], lines 39-50.  The listener runs when the socket
    has become [OPEN]; it is not wrapped in a [try]. *)
Definition openai_on_open (s : scope) : scope :=
  (read (λ s, language s.2) (λ language,
     openai_send (SessionUpdate language)) s).2.

(** [openai.on('error')], line 210 *)
Definition openai_on_error (s : scope) : scope :=
  client_send StatusProviderError s.

(** *** Browser to relay: [client.on('message')], lines 53-106

    The four branches of the body of the [try], each ending in
    [return].  A [send] to a provider socket that is still connecting
    throws: in the audio branch after the estimate was raised, in the
    flush branch before the flag is set. *)

(** Lines 58-67 *)
Definition config_branch (msg : value number) : step :=
  exec (set_language (prop msg "language")) >>
  read (λ s, language s.2) (λ language,
    try_ (openai_send (SessionUpdate language))) >>
  return_.

(** Lines 70-75 *)
Definition audio_branch (audio : jsstring) : step :=
  read (λ s, approxB64SinceCommit s.1) (λ approx,
    exec (set_approxB64SinceCommit (approx + Z.of_nat (length audio)))) >>
  openai_send (AudioAppend audio) >>
  return_.

(** Lines 78-99 *)
Definition flush_branch : step :=
  read (λ s, approxB64SinceCommit s.1) (λ approx,
    when (approx <? MIN_B64_FOR_100MS) return_) >>
  openai_send AudioCommit >>
  read (λ s, activeResponse s.1) (λ active,
    when (negb active)
      (exec (set_activeResponse true) >>
       openai_send ResponseCreate >>
       exec (set_approxB64SinceCommit 0))) >>
  return_.

(** Lines 102-103 *)
Definition ping_branch (msg : value number) : step :=
  exec (client_send (Pong (prop msg "t"))) >>
  return_.

(** The body of the [try] for a parsed message [msg]; reading [type] of
    [null] throws. *)
Definition client_message (msg : value number) : step :=
  match get msg "type" with
  | None => throw
  | Some type =>
    when (equals type "config" && truthy (prop msg "language"))
      (config_branch msg) >>
    match prop msg "audio" with
    | VStr audio =>
        when (equals type "client.audio.append") (audio_branch audio)
    | _ => skip
    end >>
    when (equals type "client.flush") flush_branch >>
    when (equals type "ping") (ping_branch msg)
  end.

(** The handler: the [catch] of line 105 takes every exception of the
    body, that of [JSON.parse] included, and keeps what was assigned
    before it. *)
Definition client_on_message (raw : jsstring) (s : scope) : scope :=
  match JSON_parse raw with
  | None => s
  | Some msg => (client_message msg s).2
  end.

(** *** Provider to relay: [openai.on('message')], lines 109-207 *)

(** [const t = String(v); k] *)
Definition with_String (v : value number) (k : jsstring → step) : step :=
  match ToString v with
  | Some t => k t
  | None => throw
  end.

(** [if (t) client.send({type:'transcript', channel, text})] *)
Definition forward (ch : channel) (t text : jsstring) : step :=
  when (negb (str_eqb t [])) (exec (client_send (Transcript ch text))).

(** The text of [m.part], lines 138-142 and 148-152: the first of
    [text], [content], [transcript] that is a string, else ''. *)
Definition part_text (m : value number) : jsstring :=
  let p := or_else (prop m "part") (VObj []) in
  match prop p "text" with
  | VStr t => t
  | _ =>
    match prop p "content" with
    | VStr t => t
    | _ =>
      match prop p "transcript" with
      | VStr t => t
      | _ => []
      end
    end
  end.

(** [m.response.output_text.map((x) => x?.content || '')] *)
Definition output_contents (xs : list (value number)) : list (value number) :=
  map (λ x, or_else (prop x "content") (VStr [])) xs.

(** The body of the loop for one parsed line [m], lines 123-202.  The
    [console.log] calls are left out. *)
Definition openai_event (m : value number) : step :=
  match get m "type" with
  | None => throw
  | Some type =>
    when (equals type "response.created") (exec (set_activeResponse true)) >>
    when (equals type "response.done") (exec (set_activeResponse false)) >>
    when (equals type "response.content_part.added")
      (let t := part_text m in forward interim t t) >>
    when (equals type "response.content_part.done")
      (let t := part_text m in forward final t (trim t) >> return_) >>
    when (equals type "error" || equals type "response.error") return_ >>
    (if equals type "response.audio_transcript.delta" then
       with_String (or_else (prop m "delta") (VStr [])) (λ t,
         forward interim t t)
     else if equals type "response.audio_transcript.done" then
       with_String (or_else (prop m "text") (VStr [])) (λ t,
         forward final (trim t) (trim t))
     else skip) >>
    (if equals type "response.text.delta" then
       with_String (or_else (prop m "delta") (VStr [])) (λ t,
         forward interim t t)
     else if equals type "response.text.done" then
       with_String (or_else (prop m "text") (VStr [])) (λ t,
         forward final (trim t) (trim t))
     else if equals type "response.output_text.delta" then
       with_String (or_else (prop m "delta") (VStr [])) (λ t,
         forward interim t t)
     else if equals type "response.delta"
             && equals (prop (prop m "delta") "type") "output_text.delta" then
       with_String (or_else (prop (prop m "delta") "text") (VStr [])) (λ t,
         forward interim t t)
     else if equals type "response.output_text.done" then
       with_String (or_else (prop m "text") (VStr [])) (λ t,
         forward final (trim t) (trim t))
     else
       match equals type "response.completed",
             prop (prop m "response") "output_text" with
       | true, VArr (x :: xs) =>
           match join_values (js " ") (output_contents (x :: xs)) with
           | Some joined => forward final (trim joined) (trim joined)
           | None => throw
           end
       | _, _ => skip
       end)
  end.

(** The [for (const line of lines)] loop: a line that does not parse
    executes [break]. *)
Fixpoint openai_lines (lines : list jsstring) : step :=
  match lines with
  | [] => skip
  | line :: rest =>
      match JSON_parse line with
      | None => skip
      | Some m => openai_event m >> openai_lines rest
      end
  end.

(** [text.split('\n').filter((l) => l.trim().length > 0)] *)
Definition nonblank_lines (text : jsstring) : list jsstring :=
  filter (λ l, (0 < length (trim l))%nat) (split 10 text).

Definition openai_on_message (data : jsstring) (s : scope) : scope :=
  (openai_lines (nonblank_lines data) s).2.

End Handlers.

Arguments scope number : clear implicits.
Arguments step number : clear implicits.

Notation "a >> b" := (then_ a b) (at level 62, right associativity).

(** *** The frame of the provider handler

    [frame s s']: from [s] to [s'] the estimate, the language, the
    messages sent upstream, the two sockets' closed flags and the state
    of the provider socket are the same.  [keeps a]: the step [a]
    changes nothing but [activeResponse] and the messages sent to the
    browser. *)

Section Frame.
Context {number : Type} `{Runtime number}.

Definition frame (s s' : scope number) : Prop :=
  approxB64SinceCommit s'.1 = approxB64SinceCommit s.1
  ∧ language s'.2 = language s.2
  ∧ openai_sent s'.2 = openai_sent s.2
  ∧ openai_closed s'.2 = openai_closed s.2
  ∧ client_closed s'.2 = client_closed s.2
  ∧ openai_readyState s'.2 = openai_readyState s.2.

Definition keeps (a : step number) : Prop := ∀ s, frame s (a s).2.

End Frame.

(** *** The shapes of provider events

    [delta_event m t]: [m] is one of the events that announce a piece of
    text [t]; [done_event m t]: [m] is one of the events that close a
    text [t].  These name the events the specification speaks of; the
    handler does not use them. *)

Section Shapes.
Context {number : Type} `{Runtime number}.

Inductive delta_event (m : value number) (t : jsstring) : Prop :=
  | content_part_added :
      equals (prop m "type") "response.content_part.added" = true →
      part_text m = t → delta_event m t
  | audio_transcript_delta :
      equals (prop m "type") "response.audio_transcript.delta" = true →
      prop m "delta" = VStr t → delta_event m t
  | text_delta :
      equals (prop m "type") "response.text.delta" = true →
      prop m "delta" = VStr t → delta_event m t
  | output_text_delta :
      equals (prop m "type") "response.output_text.delta" = true →
      prop m "delta" = VStr t → delta_event m t
  | response_delta :
      equals (prop m "type") "response.delta" = true →
      equals (prop (prop m "delta") "type") "output_text.delta" = true →
      prop (prop m "delta") "text" = VStr t → delta_event m t.

Inductive done_event (m : value number) (t : jsstring) : Prop :=
  | content_part_done :
      equals (prop m "type") "response.content_part.done" = true →
      part_text m = t → done_event m t
  | audio_transcript_done :
      equals (prop m "type") "response.audio_transcript.done" = true →
      prop m "text" = VStr t → done_event m t
  | text_done :
      equals (prop m "type") "response.text.done" = true →
      prop m "text" = VStr t → done_event m t
  | output_text_done :
      equals (prop m "type") "response.output_text.done" = true →
      prop m "text" = VStr t → done_event m t.

(** [m] is an explicit error event. *)
Definition error_event (m : value number) : Prop :=
  equals (prop m "type") "error" || equals (prop m "type") "response.error"
  = true.

End Shapes.

(** *** The server: the module-level variables and the connections *)

Record server (number : Type) := {
  shared : globals;
  connections : gmap nat (conn number)
}.
Arguments shared {number} s.
Arguments connections {number} s.

(** What the process delivers to the callbacks; a connection is named
    by a number.  The three events of a provider socket are emitted by
    the [ws] package, which sets the socket's state before it calls the
    listener. *)
Inductive event :=
  | Connection (id : nat)
  | ClientMessage (id : nat) (raw : jsstring)
  | ClientClose (id : nat)
  | OpenaiOpen (id : nat)
  | OpenaiMessage (id : nat) (data : jsstring)
  | OpenaiError (id : nat)
  | OpenaiClose (id : nat).

Section Server.
Context {number : Type} `{Runtime number}.

(** The state when the module has been loaded, lines 23-24. *)
Definition boot : server number :=
  {| shared := {| approxB64SinceCommit := 0; activeResponse := false |};
     connections := ∅ |}.

(** The locals of a new connection, lines 29-37: [new WebSocket(url)]
    returns a socket that is connecting. *)
Definition new_conn : conn number :=
  {| language := VStr (js "en"); openai_readyState := CONNECTING;
     openai_sent := []; client_sent := [];
     openai_closed := false; client_closed := false |}.

(** The provider socket becomes [OPEN] and emits ['open']. *)
Definition openai_opens (s : scope number) : scope number :=
  openai_on_open (set_openai_readyState OPEN s).

(** The provider socket fails, during the handshake or after it: it is
    [CLOSING] when it emits ['error']. *)
Definition openai_fails (s : scope number) : scope number :=
  openai_on_error (set_openai_readyState (closing (openai_readyState s.2)) s).

(** The provider socket is [CLOSED] when it emits ['close'], line 211. *)
Definition openai_closes (s : scope number) : scope number :=
  closeAll (set_openai_readyState CLOSED s).

(** Runs a callback of connection [id]: it sees the module-level
    variables and the locals of its own connection. *)
Definition in_connection (id : nat) (h : scope number → scope number)
    (srv : server number) : server number :=
  match connections srv !! id with
  | Some c =>
      let s := h (shared srv, c) in
      {| shared := s.1; connections := <[id := s.2]> (connections srv) |}
  | None => srv
  end.

Definition dispatch (srv : server number) (e : event) : server number :=
  match e with
  | Connection id =>
      {| shared := shared srv;
         connections := <[id := new_conn]> (connections srv) |}
  | ClientMessage id raw => in_connection id (client_on_message raw) srv
  | ClientClose id => in_connection id closeAll srv
  | OpenaiOpen id => in_connection id openai_opens srv
  | OpenaiMessage id data => in_connection id (openai_on_message data) srv
  | OpenaiError id => in_connection id openai_fails srv
  | OpenaiClose id => in_connection id openai_closes srv
  end.

Definition run (es : list event) (srv : server number) : server number :=
  fold_left dispatch es srv.

End Server.

(** *** A host to run the handlers on chosen messages

    Numbers are the integers, and the parser knows the texts of a table,
    each with the value it stands for. *)

Fixpoint digits (fuel : nat) (n : N) (acc : jsstring) : jsstring :=
  match fuel with
  | O => acc
  | S fuel' =>
      let acc' := (48 + n mod 10)%N :: acc in
      if (n <? 10)%N then acc' else digits fuel' (n / 10)%N acc'
  end.

Definition Z_toString (z : Z) : jsstring :=
  let n := Z.to_N (Z.abs z) in
  (if z <? 0 then [45%N] else []) ++ digits (S (N.to_nat (N.log2 n))) n [].

Definition table_host (table : list (jsstring * value Z)) : Runtime Z :=
  {| number_truthy z := negb (z =? 0);
     number_toString := Z_toString;
     JSON_parse text := snd <$> find (λ p, str_eqb p.1 text) table |}.

(** JSON text: a quoted string, and an object of string properties. *)
Definition quoted (s : string) : jsstring := [34%N] ++ js s ++ [34%N].

Fixpoint members (kvs : list (string * string)) : jsstring :=
  match kvs with
  | [] => []
  | [(k, v)] => quoted k ++ js ":" ++ quoted v
  | (k, v) :: kvs' => quoted k ++ js ":" ++ quoted v ++ js "," ++ members kvs'
  end.

Definition object_text (kvs : list (string * string)) : jsstring :=
  js "{" ++ members kvs ++ js "}".

Definition object_value (kvs : list (string * string)) : value Z :=
  VObj (map (λ kv, (js kv.1, VStr (js kv.2))) kvs).

(** The host that parses the object texts of [objs]. *)
Definition host_of (objs : list (list (string * string))) : Runtime Z :=
  table_host (map (λ kvs, (object_text kvs, object_value kvs)) objs).

(** *** Vocabulary for the properties of the handlers *)

Section Effects.
Context {number : Type} `{Runtime number}.

(** What the provider socket takes of the messages [ms] handed to its
    [send] one after the other, when it is in the state [r] and this is
    not [CONNECTING]. *)
Definition taken (r : readyState) (ms : list (upstream number))
    : list (upstream number) :=
  match r with
  | OPEN => ms
  | _ => []
  end.

(** The effects a browser message can have on the scope of its
    connection, one constructor for each path through
    [client.on('message')] that changes something, and one for the
    paths that change nothing. *)
Inductive client_effect (s : scope number) : scope number → Prop :=
  | effect_none : client_effect s s
  | effect_config (lang : value number) :
      truthy lang = true →
      client_effect s
        (s.1,
         {| language := lang;
            openai_readyState := openai_readyState s.2;
            openai_sent := openai_sent s.2
                           ++ taken (openai_readyState s.2) [SessionUpdate lang];
            client_sent := client_sent s.2;
            openai_closed := openai_closed s.2;
            client_closed := client_closed s.2 |})
  | effect_append (audio : jsstring) :
      client_effect s
        ({| approxB64SinceCommit :=
              approxB64SinceCommit s.1 + Z.of_nat (length audio);
            activeResponse := activeResponse s.1 |},
         {| language := language s.2;
            openai_readyState := openai_readyState s.2;
            openai_sent := openai_sent s.2
                           ++ taken (openai_readyState s.2) [AudioAppend audio];
            client_sent := client_sent s.2;
            openai_closed := openai_closed s.2;
            client_closed := client_closed s.2 |})
  | effect_flush_idle :
      MIN_B64_FOR_100MS ≤ approxB64SinceCommit s.1 →
      activeResponse s.1 = false →
      openai_readyState s.2 ≠ CONNECTING →
      client_effect s
        ({| approxB64SinceCommit := 0; activeResponse := true |},
         {| language := language s.2;
            openai_readyState := openai_readyState s.2;
            openai_sent := openai_sent s.2
                           ++ taken (openai_readyState s.2)
                                [AudioCommit; ResponseCreate];
            client_sent := client_sent s.2;
            openai_closed := openai_closed s.2;
            client_closed := client_closed s.2 |})
  | effect_flush_busy :
      MIN_B64_FOR_100MS ≤ approxB64SinceCommit s.1 →
      activeResponse s.1 = true →
      openai_readyState s.2 ≠ CONNECTING →
      client_effect s
        (s.1,
         {| language := language s.2;
            openai_readyState := openai_readyState s.2;
            openai_sent := openai_sent s.2
                           ++ taken (openai_readyState s.2) [AudioCommit];
            client_sent := client_sent s.2;
            openai_closed := openai_closed s.2;
            client_closed := client_closed s.2 |})
  | effect_pong (t : value number) :
      client_effect s
        (s.1,
         {| language := language s.2;
            openai_readyState := openai_readyState s.2;
            openai_sent := openai_sent s.2;
            client_sent := client_sent s.2 ++ [Pong t];
            openai_closed := openai_closed s.2;
            client_closed := client_closed s.2 |}).

(** The browser messages [raws] handled one after the other, with no
    provider event in between. *)
Definition client_run (raws : list jsstring) (s : scope number) : scope number :=
  fold_left (λ s raw, client_on_message raw s) raws s.

(** How many [response.create] instructions a log holds. *)
Fixpoint creates (log : list (upstream number)) : nat :=
  match log with
  | [] => 0
  | ResponseCreate :: log' => Datatypes.S (creates log')
  | _ :: log' => creates log'
  end.

(** In the log, every [response.create] comes right after a commit. *)
Definition commit_before_create (log : list (upstream number)) : Prop :=
  ∀ i : nat, log !! i = Some ResponseCreate →
    ∃ j : nat, i = Datatypes.S j ∧ log !! j = Some AudioCommit.

(** A message to the browser that is a transcript: a non-empty interim,
    or a final without surrounding white space. *)
Definition forwarded_ok (m : downstream number) : Prop :=
  match m with
  | Transcript interim t => t ≠ []
  | Transcript final t => trim t = t
  | _ => False
  end.

(** The step [a] sends the browser transcripts only, after what was
    sent before. *)
Definition emits (a : step number) : Prop :=
  ∀ s, ∃ new, client_sent (a s).2.2 = client_sent s.2 ++ new
              ∧ Forall forwarded_ok new.

(** The invariant of a server: [G] holds of the module-level variables
    and [C] of every connection. *)
Definition server_inv (G : globals → Prop) (C : conn number → Prop)
    (srv : server number) : Prop :=
  G (shared srv) ∧ ∀ id c, connections srv !! id = Some c → C c.

(** The handler [h] keeps [G] of the module-level variables and [C] of
    its connection. *)
Definition handler_keeps (G : globals → Prop) (C : conn number → Prop)
    (h : scope number → scope number) : Prop :=
  ∀ s, G s.1 → C s.2 → G (h s).1 ∧ C (h s).2.

End Effects.

(** The type tags [openai.on('message')] compares [m.type] with. *)
Definition known_event_types : list string :=
  ["response.created"; "response.done"; "response.content_part.added";
   "response.content_part.done"; "error"; "response.error";
   "response.audio_transcript.delta"; "response.audio_transcript.done";
   "response.text.delta"; "response.text.done"; "response.output_text.delta";
   "response.delta"; "response.output_text.done"; "response.completed"]%string.

(** The type tags [client.on('message')] compares [msg.type] with. *)
Definition known_message_types : list string :=
  ["config"; "client.audio.append"; "client.flush"; "ping"]%string.

(** Messages of the two peers, as objects of string properties. *)
Local Open Scope string_scope.

Definition config_ko := [("type", "config"); ("language", "ko")].
Definition flush := [("type", "client.flush")].
Definition text_delta_hel := [("type", "response.text.delta"); ("delta", "hel")].
Definition text_done_lo := [("type", "response.text.done"); ("text", " lo ")].
Definition text_done_blank := [("type", "response.text.done"); ("text", " ")].
Definition error_overloaded :=
  [("type", "error"); ("message", "server overloaded")].

(** A [client.audio.append] message whose audio has [n] characters. *)
Definition append_of_length (n : nat) :=
  [("type", "client.audio.append");
   ("audio", string_of_list_ascii (repeat "A"%char n))].

Definition sample_host : Runtime Z :=
  host_of [config_ko; flush; text_delta_hel; text_done_lo; text_done_blank;
           error_overloaded; append_of_length 6400].

(** A provider message of three lines: a text delta, a line that is not
    JSON, a text done. *)
Definition batch_with_garbage : jsstring :=
  object_text text_delta_hel ++ [10%N] ++ js "oops" ++ [10%N]
  ++ object_text text_done_lo.

(** A scope with nothing sent yet, the provider socket open. *)
Definition fresh_scope (approx : Z) (active : bool) : scope Z :=
  ({| approxB64SinceCommit := approx; activeResponse := active |},
   {| language := VStr (js "en"); openai_readyState := OPEN;
      openai_sent := []; client_sent := [];
      openai_closed := false; client_closed := false |}).

(** The same scope on a new connection, whose provider socket is still
    connecting. *)
Definition connecting_scope (approx : Z) (active : bool) : scope Z :=
  ({| approxB64SinceCommit := approx; activeResponse := active |},
   {| language := VStr (js "en"); openai_readyState := CONNECTING;
      openai_sent := []; client_sent := [];
      openai_closed := false; client_closed := false |}).

End Relay.

(* ================================================================== *)
(** * Part II: theorems                                                 *)
(* ================================================================== *)

Import JS Numeric.

(** ** Strings *)

Lemma startsWith_app (s p : jsstring) :
  startsWith s p = true ↔ ∃ rest, s = p ++ rest.
Proof.
  revert s; induction p as [|b p IH]; intros s; simpl.
  - split; [intros _; by exists s | done].
  - destruct s as [|a s].
    + split; [done | intros [rest Hrest]; discriminate].
    + rewrite andb_true_iff, N.eqb_eq, IH. split.
      * intros [-> [rest ->]]. by exists rest.
      * intros [rest Hrest]. injection Hrest as -> ->. eauto.
Qed.

Lemma proper_prefix_test (prev next : jsstring) :
  startsWith prev next && (length next <? length prev)%nat = true
  ↔ Page.proper_prefix next prev.
Proof.
  unfold Page.proper_prefix.
  rewrite andb_true_iff, startsWith_app, Nat.ltb_lt. split.
  - intros [[rest ->] Hlen]. exists rest. split; [|done].
    intros ->. rewrite length_app in Hlen. simpl in Hlen. lia.
  - intros [rest [Hne ->]]. split; [by exists rest|].
    rewrite length_app. destruct rest; [done | simpl; lia].
Qed.

(** ** C9: interim smoothing *)

(** C9.  [smoothInterim(prev, next)]: an empty [prev] gives [next];
    otherwise an empty [next] gives the empty string; otherwise, if
    [next] is a proper prefix of [prev], the result is [prev]; otherwise
    it is [next].  The four examples of the specification follow. *)
Theorem smoothInterim_cases (prev next : jsstring) :
  (prev = [] → Page.smoothInterim prev next = next)
  ∧ (prev ≠ [] → next = [] → Page.smoothInterim prev next = [])
  ∧ (prev ≠ [] → next ≠ [] → Page.proper_prefix next prev →
     Page.smoothInterim prev next = prev)
  ∧ (prev ≠ [] → next ≠ [] → ¬ Page.proper_prefix next prev →
     Page.smoothInterim prev next = next)
  ∧ Page.smoothInterim (js "") (js "x") = js "x"
  ∧ Page.smoothInterim (js "x") (js "") = js ""
  ∧ Page.smoothInterim (js "hello wor") (js "hello") = js "hello wor"
  ∧ Page.smoothInterim (js "hi the") (js "hello") = js "hello".
Proof.
  repeat split; try reflexivity.
  - by intros ->.
  - intros Hp ->. by destruct prev.
  - intros Hp Hn Hpre. apply proper_prefix_test in Hpre.
    destruct prev; [done|]. destruct next; [done|].
    unfold Page.smoothInterim. by rewrite Hpre.
  - intros Hp Hn Hpre. destruct prev; [done|]. destruct next; [done|].
    unfold Page.smoothInterim.
    destruct (startsWith _ _ && _) eqn:E; [|done].
    apply proper_prefix_test in E. contradiction.
Qed.

Lemma smoothInterim_cases_witness :
  Page.proper_prefix (js "hello") (js "hello wor")
  ∧ Page.smoothInterim (js "hello wor") (js "hello") = js "hello wor".
Proof.
  split.
  - exists (js " wor"). split; [discriminate | reflexivity].
  - destruct (smoothInterim_cases (js "hello wor") (js "hello"))
      as (_ & _ & Hkeep & _).
    apply Hkeep; [discriminate | discriminate |].
    exists (js " wor"). split; [discriminate | reflexivity].
Defined.

(** ** Loops over a range *)

Lemma for_range_S {S : Type} (n : nat) (body : nat → S → S) (s : S) :
  Page.for_range (Datatypes.S n) body s = body n (Page.for_range n body s).
Proof.
  unfold Page.for_range. rewrite seq_S, fold_left_app. reflexivity.
Qed.

(** A loop that stores [f x] at each index [i] of a zero-filled array,
    [x] being the element [i] of [l], fills it with [map f l]. *)
Lemma for_range_store {A B : Type} (f : A → B) (z : B) (l : list A) (n : nat) :
  (n ≤ length l)%nat →
  Page.for_range n
    (λ i out, match l !! i with
              | Some x => <[i := f x]> out
              | None => out
              end)
    (replicate (length l) z)
  = map f (take n l) ++ replicate (length l - n) z.
Proof.
  induction n as [|n IH]; intros Hn.
  - simpl. by rewrite Nat.sub_0_r.
  - rewrite for_range_S, IH by lia.
    destruct (lookup_lt_is_Some_2 l n ltac:(lia)) as [x Hx]. rewrite Hx.
    rewrite (take_S_r _ _ _ Hx), map_app. simpl.
    replace (length l - n)%nat with (Datatypes.S (length l - Datatypes.S n)) by lia.
    simpl. rewrite <- (Nat.add_0_r n) at 1.
    replace (n + 0)%nat with (length (map f (take n l)) + 0)%nat
      by (rewrite length_map, length_take; lia).
    rewrite insert_app_r. simpl. by rewrite <- app_assoc.
Qed.

(** ** C8: quantisation *)

Lemma wrap16_range (z : Z) : -32768 ≤ wrap16 z ≤ 32767.
Proof. unfold wrap16. pose proof (Z.mod_pos_bound (z + 32768) 65536). lia. Qed.

Lemma floatToPCM16_map {T : Type} `{JSNumber T} (f32 : list T) :
  Page.floatToPCM16 f32 = map (λ x, toInt16 (Page.scaled x)) f32.
Proof.
  unfold Page.floatToPCM16.
  rewrite (for_range_store (λ x, toInt16 (Page.scaled x)) 0 f32 (length f32))
    by lia.
  by rewrite firstn_all, Nat.sub_diag, app_nil_r.
Qed.

(** C8.  [floatToPCM16] keeps the length; the output at each index is
    the input clamped to [-1, 1], scaled by 32768 when negative and by
    32767 otherwise, and stored as a 16-bit integer; every output lies
    in [-32768, 32767]; and the five samples [1, 0.5, 0, -0.5, -1] give
    five outputs, all in that range. *)
Theorem floatToPCM16_quantizes {T : Type} `{JSNumber T} (f32 : list T) :
  length (Page.floatToPCM16 f32) = length f32
  ∧ (∀ (i : nat) (x : T), f32 !! i = Some x →
       Page.floatToPCM16 f32 !! i =
       Some (toInt16
               (let s := Math_max (of_Z (-1)) (Math_min (of_Z 1) x) in
                if ltb s (of_Z 0) then mul s (of_Z 32768)
                else mul s (of_Z 32767))))
  ∧ Forall (λ y, -32768 ≤ y ≤ 32767) (Page.floatToPCM16 f32)
  ∧ Page.floatToPCM16 (T := spec_float)
      [of_Z 1; div (of_Z 1) (of_Z 2); of_Z 0; div (of_Z (-1)) (of_Z 2);
       of_Z (-1)]
    = [32767; 16383; 0; -16384; -32768].
Proof.
  rewrite floatToPCM16_map. split; [|split; [|split]].
  - by rewrite length_map.
  - intros i x Hx. rewrite list_lookup_fmap, Hx. reflexivity.
  - apply Forall_forall. intros y Hy. apply list_elem_of_fmap in Hy.
    destruct Hy as [x [-> _]]. apply wrap16_range.
  - vm_compute. reflexivity.
Qed.

Lemma floatToPCM16_quantizes_witness :
  Page.floatToPCM16 (T := spec_float) [S754_infinity false; S754_nan] !! 1%nat
  = Some 0.
Proof.
  destruct (floatToPCM16_quantizes (T := spec_float)
              [S754_infinity false; S754_nan]) as (_ & Hat & _).
  rewrite (Hat 1%nat S754_nan); reflexivity.
Defined.

(** ** C7: resampling *)

Section Resampling.
Context {T : Type} `{JSNumber T}.

(** Induction on a list two elements at a time. *)
Lemma list_pair_ind (P : list T → Prop) :
  P [] → (∀ a, P [a]) → (∀ a b l, P l → P (a :: b :: l)) → ∀ l, P l.
Proof.
  intros Hnil Hone Hstep l.
  cut (P l ∧ ∀ a, P (a :: l)); [tauto|].
  induction l as [|b l [IH1 IH2]]; split; auto.
Qed.

Lemma average_pairs_length (samples : list T) :
  length (Page.average_pairs samples) = (length samples / 2)%nat.
Proof.
  induction samples as [| a | a b l IH] using list_pair_ind; try reflexivity.
  cbn [Page.average_pairs length]. rewrite IH.
  change (Datatypes.S (Datatypes.S (length l))) with (2 + length l)%nat.
  replace (2 + length l)%nat with (length l + 1 * 2)%nat by lia.
  rewrite Nat.div_add by lia. lia.
Qed.

Lemma average_pairs_drop (n : nat) (samples : list T) :
  drop n (Page.average_pairs samples) = Page.average_pairs (drop (2 * n) samples).
Proof.
  revert samples; induction n as [|n IH]; intros samples; [done|].
  replace (2 * Datatypes.S n)%nat with (Datatypes.S (Datatypes.S (2 * n))) by lia.
  destruct samples as [|a [|b l]]; simpl; [done | done | apply IH].
Qed.

Lemma average_pairs_lookup (samples : list T) (i : nat) (a b : T) :
  samples !! (2 * i)%nat = Some a → samples !! (2 * i + 1)%nat = Some b →
  Page.average_pairs samples !! i = Some (Page.average2 a b).
Proof.
  intros Ha Hb.
  rewrite <- (Nat.add_0_r i), <- lookup_drop, average_pairs_drop.
  rewrite <- (Nat.add_0_r (2 * i)), <- lookup_drop in Ha.
  rewrite <- lookup_drop in Hb.
  destruct (drop (2 * i) samples) as [|a' [|b' l]]; simpl in *; congruence.
Qed.

(** One span at ratio 2: two samples are read, then the loop stops. *)
Lemma take_span_two (i : nat) (a b : T) (rest : list T) (sum : T) :
  Page.take_span 48000 (Z.of_nat i + 1) (2 * Z.of_nat i) (a :: b :: rest) sum 0
  = (2 * Z.of_nat i + 2, rest, add (add sum a) b, 2).
Proof.
  cbn [Page.take_span].
  replace (2 * Z.of_nat i * 24000 <? (Z.of_nat i + 1) * 48000) with true
    by (symmetry; apply Z.ltb_lt; lia).
  replace ((2 * Z.of_nat i + 1) * 24000 <? (Z.of_nat i + 1) * 48000) with true
    by (symmetry; apply Z.ltb_lt; lia).
  destruct rest as [|c rest]; cbn [Page.take_span].
  - do 3 f_equal; lia.
  - replace ((2 * Z.of_nat i + 1 + 1) * 24000 <? (Z.of_nat i + 1) * 48000)
      with false by (symmetry; apply Z.ltb_ge; lia).
    do 3 f_equal; lia.
Qed.

(** The state of the outer loop after [n] iterations at ratio 2. *)
Lemma downsample_loop_48k (samples : list T) (len n : nat) :
  (n ≤ length samples / 2)%nat → (n ≤ len)%nat →
  Page.for_range n (Page.downsample_step 48000)
    {| Page.rs_acc := 0; Page.rs_rest := samples;
       Page.rs_out := replicate len (of_Z 0) |}
  = {| Page.rs_acc := 2 * Z.of_nat n;
       Page.rs_rest := drop (2 * n) samples;
       Page.rs_out := take n (Page.average_pairs samples)
                      ++ replicate (len - n) (of_Z 0) |}.
Proof.
  induction n as [|n IH]; intros Hn Hlen.
  - simpl. by rewrite Nat.sub_0_r.
  - rewrite for_range_S, IH by lia. unfold Page.downsample_step.
    cbn [Page.rs_acc Page.rs_rest Page.rs_out].
    assert (Hlt : (2 * n + 1 < length samples)%nat).
    { pose proof (Nat.div_mod_eq (length samples) 2).
      pose proof (Nat.mod_upper_bound (length samples) 2). lia. }
    destruct (lookup_lt_is_Some_2 samples (2 * n) ltac:(lia)) as [a Ha].
    destruct (lookup_lt_is_Some_2 samples (2 * n + 1) ltac:(lia)) as [b Hb].
    pose proof (average_pairs_lookup samples n a b Ha Hb) as Havg.
    assert (Hdrop : drop (2 * n) samples
                    = a :: b :: drop (2 * Datatypes.S n) samples).
    { rewrite (drop_S _ _ _ Ha). f_equal.
      replace (Datatypes.S (2 * n)) with (2 * n + 1)%nat by lia.
      rewrite (drop_S _ _ _ Hb). f_equal. f_equal. lia. }
    rewrite Hdrop, take_span_two. cbn [Z.eqb Pos.eqb].
    f_equal; [lia|].
    rewrite (take_S_r _ _ _ Havg).
    replace (len - n)%nat with (Datatypes.S (len - Datatypes.S n)) by lia.
    cbn [replicate]. rewrite <- app_assoc. cbn [app].
    assert (Hk : length (take n (Page.average_pairs samples)) = n).
    { rewrite length_take, average_pairs_length. lia. }
    rewrite <- Hk at 1. rewrite <- (Nat.add_0_r (length _)).
    rewrite insert_app_r. reflexivity.
Qed.

Lemma downsample_48k (samples : list T) :
  Page.downsampleTo24kHz samples 48000 = Some (Page.average_pairs samples).
Proof.
  unfold Page.downsampleTo24kHz. cbn [Z.eqb Pos.eqb Z.leb Z.compare].
  set (newLen := Z.to_nat (Z.of_nat (length samples) * 24000 / 48000)).
  assert (HnewLen : newLen = (length samples / 2)%nat).
  { unfold newLen. rewrite <- (Nat2Z.id (length samples / 2)). f_equal.
    rewrite Nat2Z.inj_div. change (Z.of_nat 2) with 2.
    symmetry.
    apply Z.div_unique with (r := (Z.of_nat (length samples) mod 2) * 24000).
    - pose proof (Z.mod_pos_bound (Z.of_nat (length samples)) 2). lia.
    - pose proof (Z.div_mod (Z.of_nat (length samples)) 2). lia. }
  rewrite downsample_loop_48k by lia. cbn [Page.rs_out].
  rewrite Nat.sub_diag, app_nil_r, HnewLen, <- average_pairs_length.
  by rewrite firstn_all.
Qed.

End Resampling.

Lemma impulse_length {T : Type} `{JSNumber T} :
  Z.of_nat (length (Page.impulse (T := T))) = 48000.
Proof.
  unfold Page.impulse. cbn [length].
  rewrite length_replicate, Nat2Z.inj_succ, Z2Nat.id; [reflexivity | lia].
Qed.

(** C7.  [downsampleTo24kHz] is the identity at 24000 Hz; at 48000 Hz
    the output has [floor(length / 2)] samples, and the output sample
    [i] is the average of the source samples [2i] and [2i + 1], the
    ones of its span; the 48000-sample impulse gives 24000 samples. *)
Theorem downsampleTo24kHz_box_filter {T : Type} `{JSNumber T} :
  (∀ samples : list T, Page.downsampleTo24kHz samples 24000 = Some samples)
  ∧ (∀ samples : list T, ∃ out : list T,
       Page.downsampleTo24kHz samples 48000 = Some out
       ∧ length out = (length samples / 2)%nat
       ∧ ∀ i : nat, (i < length out)%nat →
           ∃ a b : T,
             samples !! (2 * i)%nat = Some a
             ∧ samples !! (2 * i + 1)%nat = Some b
             ∧ out !! i = Some (fround (div (add (add (of_Z 0) a) b) (of_Z 2))))
  ∧ Z.of_nat (length (Page.impulse (T := T))) = 48000
  ∧ (λ out, Z.of_nat (length out))
      <$> Page.downsampleTo24kHz (T := T) Page.impulse 48000
    = Some 24000.
Proof.
  split; [|split; [|split]].
  - intros samples. reflexivity.
  - intros samples. exists (Page.average_pairs samples).
    split; [apply downsample_48k|]. split; [apply average_pairs_length|].
    intros i Hi. rewrite average_pairs_length in Hi.
    assert (Hlt : (2 * i + 1 < length samples)%nat).
    { pose proof (Nat.div_mod_eq (length samples) 2).
      pose proof (Nat.mod_upper_bound (length samples) 2). lia. }
    destruct (lookup_lt_is_Some_2 samples (2 * i) ltac:(lia)) as [a Ha].
    destruct (lookup_lt_is_Some_2 samples (2 * i + 1) ltac:(lia)) as [b Hb].
    exists a, b. split; [done|]. split; [done|].
    apply (average_pairs_lookup samples i a b Ha Hb).
  - apply impulse_length.
  - rewrite downsample_48k.
    generalize (impulse_length (T := T)).
    generalize (Page.impulse (T := T)). intros l Hl.
    change (Some (Z.of_nat (length (Page.average_pairs l))) = Some 24000).
    rewrite average_pairs_length, Nat2Z.inj_div, Hl. reflexivity.
Qed.

Lemma downsampleTo24kHz_box_filter_witness :
  ∃ out : list spec_float,
    Page.downsampleTo24kHz
      [of_Z 1; of_Z 2; of_Z 3; of_Z 4; of_Z 5] 48000 = Some out
    ∧ length out = 2%nat
    ∧ out !! 1%nat = Some (div (of_Z 7) (of_Z 2)).
Proof.
  destruct (downsampleTo24kHz_box_filter (T := spec_float))
    as (_ & Hhalf & _).
  destruct (Hhalf [of_Z 1; of_Z 2; of_Z 3; of_Z 4; of_Z 5])
    as (out & Hout & Hlen & Hat).
  exists out. split; [exact Hout|]. split; [exact Hlen|].
  destruct (Hat 1%nat) as (a & b & Ha & Hb & Hi).
  - rewrite Hlen. vm_compute. lia.
  - rewrite Hi. vm_compute in Ha, Hb.
    injection Ha as <-. injection Hb as <-. vm_compute. reflexivity.
Defined.

(** ** C3: the sample accumulator *)

(** What the handler does when the backlog reaches the threshold and
    the socket is open: the frame is made from [down], the newest
    resampled chunk. *)
Lemma port_onmessage_over_threshold {T : Type} `{JSNumber T}
    (st : Page.capture T) (f32 down : list T) :
  Page.downsampleTo24kHz f32 (Page.sampleRateRef st) = Some down →
  (Page.THRESHOLD_SAMPLES_24K
   ≤ length (Page.appended (Page.pendingSamplesRef st) down))%nat →
  Page.ws_readyState st = OPEN →
  Page.port_onmessage (Page.Samples f32) st
  = {| Page.pendingSamplesRef := None;
       Page.sampleRateRef := Page.sampleRateRef st;
       Page.wsRef :=
         (λ sent, sent ++ [Page.ClientAudioAppend
                             (Page.base64FromPCM16 (Page.floatToPCM16 down))])
         <$> Page.wsRef st;
       Page.ws_readyState := OPEN |}.
Proof.
  intros Hdown Hlen Hopen. unfold Page.port_onmessage, Page.ws_send.
  rewrite Hdown, Hopen.
  apply Nat.leb_le in Hlen. rewrite Hlen. by destruct (Page.wsRef st).
Qed.

(** C3, on the code, with the socket open.  After thirty-seven blocks
    of 128 full-scale samples at 48 kHz the pending buffer holds 2368
    resampled samples and nothing has been sent.  The next block, of silence, takes the
    backlog to 2432 samples, over the threshold: the frame sent encodes
    the 64 samples of that last block only, which is not the encoding
    of the backlog, and the pending buffer is cleared, so the 2368
    earlier samples are never sent. *)
Theorem accumulator_sends_newest_chunk_only :
  let before := Page.capture_run (replicate 37 Page.loud_block) Page.capture_start in
  let backlog := replicate 2368 (of_Z 1) ++ replicate 64 (of_Z 0) in
  Page.pendingSamplesRef before = Some (replicate 2368 (of_Z 1))
  ∧ Page.wsRef before = Some []
  ∧ Page.port_onmessage Page.quiet_block before
    = {| Page.pendingSamplesRef := None;
         Page.sampleRateRef := 48000;
         Page.wsRef :=
           Some [Page.ClientAudioAppend
                   (Page.base64FromPCM16 (replicate 64 0))];
         Page.ws_readyState := OPEN |}
  ∧ length (Page.base64FromPCM16 (replicate 64 0)) = 172%nat
  ∧ length (Page.base64FromPCM16 (Page.floatToPCM16 backlog)) = 6488%nat.
Proof.
  vm_compute. repeat split; reflexivity.
Qed.

(** ** The relay *)

Import Relay.

Section RelayFacts.
Context {number : Type} `{Runtime number}.

Lemma equals_true (v : value number) (lit : string) :
  equals v lit = true → v = VStr (js lit).
Proof.
  destruct v; simpl; try discriminate.
  unfold str_eqb. intros Heq. apply bool_decide_eq_true in Heq. by subst.
Qed.

Lemma prop_is_string (m : value number) (k : string) (t : jsstring) :
  prop m k = VStr t → get m "type" = Some (prop m "type").
Proof. destruct m; simpl; try discriminate; done. Qed.

End RelayFacts.

(** Decides the comparisons of a known string with the literals of the
    source. *)
Ltac eval_equals :=
  repeat match goal with
         | |- context [@equals ?n (VStr (js ?a)) ?b] =>
             let r := eval vm_compute in (@equals n (VStr (js a)) b) in
             change (@equals n (VStr (js a)) b) with r
         end;
  cbn [andb orb negb].

(** Unfolds the assignments and the sends to the browser. *)
Ltac run_effects :=
  unfold set_approxB64SinceCommit, set_activeResponse, set_language,
    set_openai_readyState, client_send;
  cbn [fst snd approxB64SinceCommit activeResponse language openai_readyState
       openai_sent client_sent openai_closed client_closed].

(** Names the type tag of a message once it is known. *)
Ltac know_type m Htype :=
  apply equals_true in Htype;
  pose proof (prop_is_string m "type" _ Htype) as Hget.

(** Enters the body of [client.on('message')] for a parsed message
    whose type tag is known. *)
Ltac run_message msg Htype :=
  know_type msg Htype; unfold client_on_message, client_message;
  match goal with
  | Hparse : JSON_parse _ = Some msg |- _ => rewrite Hparse
  end;
  match goal with
  | Hget : get msg "type" = _ |- _ => rewrite Hget
  end;
  cbv beta iota; rewrite !Htype; eval_equals.

(** Runs the statements of a branch as far as its tests are decided. *)
Ltac run_branch :=
  cbv [config_branch audio_branch flush_branch ping_branch
       MIN_B64_FOR_100MS when then_ skip return_ throw exec read try_ openai_send taken
       set_approxB64SinceCommit set_activeResponse set_language client_send
       fst snd approxB64SinceCommit activeResponse language openai_readyState
       openai_sent client_sent openai_closed client_closed negb].

(** Puts an upstream log in the form [sent ++ new]. *)
Ltac tidy_log := rewrite ?app_nil_r, <- ?app_assoc; cbn [app].

Section ClientMessages.
Context {number : Type} `{Runtime number}.

(** *** C1: the commit/response gate *)

(** C1, as the code has it.  On a flush: below 6400 nothing is sent and
    nothing changes, whatever the state of the provider socket.  With
    the provider socket open: at or above 6400 with no response
    running, one commit and one request-create are sent, the flag
    becomes true and the estimate zero; at or above 6400 with a
    response running, one commit is sent and nothing else changes, the
    estimate included. *)
Theorem flush_gate (raw : jsstring) (msg : value number) (s : scope number) :
  JSON_parse raw = Some msg →
  equals (prop msg "type") "client.flush" = true →
  (approxB64SinceCommit s.1 < 6400 → client_on_message raw s = s)
  ∧ (openai_readyState s.2 = OPEN →
     6400 ≤ approxB64SinceCommit s.1 → activeResponse s.1 = false →
     client_on_message raw s
     = ({| approxB64SinceCommit := 0; activeResponse := true |},
        {| language := language s.2;
           openai_readyState := OPEN;
           openai_sent := openai_sent s.2 ++ [AudioCommit; ResponseCreate];
           client_sent := client_sent s.2;
           openai_closed := openai_closed s.2;
           client_closed := client_closed s.2 |}))
  ∧ (openai_readyState s.2 = OPEN →
     6400 ≤ approxB64SinceCommit s.1 → activeResponse s.1 = true →
     client_on_message raw s
     = (s.1,
        {| language := language s.2;
           openai_readyState := OPEN;
           openai_sent := openai_sent s.2 ++ [AudioCommit];
           client_sent := client_sent s.2;
           openai_closed := openai_closed s.2;
           client_closed := client_closed s.2 |})).
Proof.
  intros Hparse Htype. run_message msg Htype.
  destruct s as [[approx active] [lang ready sent csent oclosed cclosed]].
  cbn [fst snd approxB64SinceCommit activeResponse openai_readyState language
       openai_sent client_sent openai_closed client_closed].
  split; [|split].
  - intros Hlt. apply Z.ltb_lt in Hlt.
    destruct (prop msg "audio"); run_branch; rewrite Hlt; reflexivity.
  - intros -> Hge ->. apply Z.ltb_ge in Hge.
    destruct (prop msg "audio"); run_branch; rewrite Hge; run_branch;
      tidy_log; reflexivity.
  - intros -> Hge ->. apply Z.ltb_ge in Hge.
    destruct (prop msg "audio"); run_branch; rewrite Hge; run_branch;
      tidy_log; reflexivity.
Qed.

(** *** C10: a configuration message *)

(** C10, as the code has it.  A [config] message whose [language] is
    truthy (a language code is a non-empty string) sets the language of
    the connection and hands one session update to the provider socket,
    which takes it when it is open: while the socket is connecting the
    [send] throws into the empty [catch] of line 66, and nothing is
    pushed.  The two counters, the messages sent to the browser and
    everything else stay as they were. *)
Theorem config_sets_language_only
    (raw : jsstring) (msg lang : value number) (s : scope number) :
  JSON_parse raw = Some msg →
  equals (prop msg "type") "config" = true →
  prop msg "language" = lang →
  truthy lang = true →
  client_on_message raw s
  = (s.1,
     {| language := lang;
        openai_readyState := openai_readyState s.2;
        openai_sent := openai_sent s.2
                       ++ taken (openai_readyState s.2) [SessionUpdate lang];
        client_sent := client_sent s.2;
        openai_closed := openai_closed s.2;
        client_closed := client_closed s.2 |}).
Proof.
  intros Hparse Htype <- Htruthy. run_message msg Htype. rewrite Htruthy.
  destruct s as [g [l ready sent csent oclosed cclosed]].
  by destruct ready; run_branch; tidy_log.
Qed.

End ClientMessages.

Lemma flush_gate_witness :
  client_on_message (H := sample_host) (object_text flush)
    (fresh_scope 6400 false)
  = ({| approxB64SinceCommit := 0; activeResponse := true |},
     {| language := VStr (js "en");
        openai_readyState := OPEN;
        openai_sent := [AudioCommit; ResponseCreate];
        client_sent := [];
        openai_closed := false;
        client_closed := false |}).
Proof.
  destruct (flush_gate (H := sample_host) (object_text flush)
              (object_value flush) (fresh_scope 6400 false))
    as (_ & Hidle & _).
  - vm_compute. reflexivity.
  - vm_compute. reflexivity.
  - apply Hidle.
    + reflexivity.
    + simpl. lia.
    + reflexivity.
Defined.

(** C1 as stated fails while the provider socket is connecting.  A new
    connection has appended 6400 characters of audio, so the estimate is
    at the threshold and no response is running; its provider socket has
    not opened yet.  The flush sends no commit and no request-create,
    leaves the flag false and does not reset the estimate: the [send] of
    line 84 throws and the [catch] of line 105 ends the handler. *)
Lemma flush_before_provider_opens_counterexample :
  let append := ClientMessage 1 (object_text (append_of_length 6400)) in
  let before := run (H := sample_host) [Connection 1; append] boot in
  let after :=
    run (H := sample_host)
      [Connection 1; append; ClientMessage 1 (object_text flush)] boot in
  shared before = {| approxB64SinceCommit := 6400; activeResponse := false |}
  ∧ openai_readyState <$> connections before !! 1%nat = Some CONNECTING
  ∧ shared after = {| approxB64SinceCommit := 6400; activeResponse := false |}
  ∧ openai_sent <$> connections after !! 1%nat = Some [].
Proof.
  vm_compute. repeat split; reflexivity.
Qed.

Lemma config_sets_language_only_witness :
  client_on_message (H := sample_host) (object_text config_ko)
    (fresh_scope 7000 true)
  = ({| approxB64SinceCommit := 7000; activeResponse := true |},
     {| language := VStr (js "ko");
        openai_readyState := OPEN;
        openai_sent := [SessionUpdate (VStr (js "ko"))];
        client_sent := [];
        openai_closed := false;
        client_closed := false |}).
Proof.
  apply (config_sets_language_only (H := sample_host) (object_text config_ko)
           (object_value config_ko) (VStr (js "ko")) (fresh_scope 7000 true)).
  - vm_compute. reflexivity.
  - vm_compute. reflexivity.
  - vm_compute. reflexivity.
  - vm_compute. reflexivity.
Defined.

(** C10 as stated fails while the provider socket is connecting, which
    is when the page's [config], sent as soon as the browser socket
    opens, usually arrives: on a new connection the message sets the
    language and pushes no session update. *)
Lemma config_before_provider_opens_counterexample :
  let after :=
    run (H := sample_host)
      [Connection 1; ClientMessage 1 (object_text config_ko)] boot in
  language <$> connections after !! 1%nat = Some (VStr (js "ko"))
  ∧ openai_sent <$> connections after !! 1%nat = Some [].
Proof.
  vm_compute. repeat split; reflexivity.
Qed.

(** ** The provider side *)

Section ProviderMessages.
Context {number : Type} `{Runtime number}.

Lemma then_skip_r (a : step number) (s : scope number) : (a >> skip) s = a s.
Proof. unfold then_, skip. by destruct (a s) as [[] ?]. Qed.

(** The loop over a batch, cut in two: the second part runs only if
    every line of the first parsed and none left the handler. *)
Lemma openai_lines_app (pre rest : list jsstring) (s : scope number) :
  openai_lines (pre ++ rest) s
  = if forallb (λ l, bool_decide (is_Some (JSON_parse l))) pre
    then (openai_lines pre >> openai_lines rest) s
    else openai_lines pre s.
Proof.
  revert s; induction pre as [|l pre IH]; intros s.
  - simpl. reflexivity.
  - cbn [app openai_lines forallb].
    destruct (JSON_parse l) as [m|] eqn:Hl.
    + rewrite bool_decide_eq_true_2 by eauto. cbn [andb].
      unfold then_. destruct (openai_event m s) as [[] s'].
      * rewrite IH. unfold then_. reflexivity.
      * by destruct (forallb _ _).
      * by destruct (forallb _ _).
    + rewrite bool_decide_eq_false_2 by (intros [? ?]; discriminate).
      reflexivity.
Qed.

(** A line that does not parse ends the batch where it stands. *)
Lemma openai_lines_break (pre post : list jsstring) (bad : jsstring) (s : scope number) :
  JSON_parse bad = None →
  openai_lines (pre ++ bad :: post) s = openai_lines pre s.
Proof.
  intros Hbad. rewrite openai_lines_app.
  destruct (forallb _ _); [|reflexivity].
  cbn [openai_lines]. rewrite Hbad. apply then_skip_r.
Qed.

(** *** What the provider handler leaves alone *)

Lemma frame_refl (s : scope number) : frame s s.
Proof. by repeat split. Qed.

Lemma frame_trans (s1 s2 s3 : scope number) : frame s1 s2 → frame s2 s3 → frame s1 s3.
Proof.
  unfold frame. intros (? & ? & ? & ? & ? & ?) (? & ? & ? & ? & ? & ?).
  repeat split; congruence.
Qed.

Lemma keeps_skip : keeps (number := number) skip.
Proof. intros s. apply frame_refl. Qed.

Lemma keeps_return : keeps (number := number) return_.
Proof. intros s. apply frame_refl. Qed.

Lemma keeps_throw : keeps (number := number) throw.
Proof. intros s. apply frame_refl. Qed.

Lemma keeps_set_activeResponse (b : bool) :
  keeps (number := number) (exec (set_activeResponse b)).
Proof. intros s. by repeat split. Qed.

Lemma keeps_client_send (m : downstream number) : keeps (exec (client_send m)).
Proof. intros s. by repeat split. Qed.

Lemma keeps_then (a b : step number) : keeps a → keeps b → keeps (a >> b).
Proof.
  intros Ha Hb s. unfold then_. specialize (Ha s).
  destruct (a s) as [[] s']; try exact Ha.
  eapply frame_trans; [exact Ha | apply Hb].
Qed.

Lemma keeps_when (c : bool) (a : step number) : keeps a → keeps (when c a).
Proof. destruct c; [done | intros _; apply keeps_skip]. Qed.

Lemma keeps_forward (ch : channel) (t text : jsstring) :
  keeps (number := number) (forward ch t text).
Proof. apply keeps_when, keeps_client_send. Qed.

Lemma keeps_with_String (v : value number) (k : jsstring → step number) :
  (∀ t, keeps (k t)) → keeps (with_String v k).
Proof.
  intros Hk. unfold with_String. destruct (ToString v); [apply Hk | apply keeps_throw].
Qed.

End ProviderMessages.

Create HintDb keeps.

#[local] Hint Resolve keeps_skip keeps_return keeps_throw
  keeps_set_activeResponse keeps_client_send keeps_then keeps_when
  keeps_forward keeps_with_String : keeps.

Ltac keeps_cases :=
  repeat first
    [ progress auto with keeps
    | apply keeps_then
    | apply keeps_when
    | apply keeps_with_String; intros ?
    | match goal with
      | |- keeps (if ?c then _ else _) => destruct c
      | |- keeps (match ?x with _ => _ end) => destruct x
      | |- keeps (let _ := _ in _) => cbv zeta
      end ].

Section ProviderFrame.
Context {number : Type} `{Runtime number}.

Lemma keeps_openai_event (m : value number) : keeps (openai_event m).
Proof. unfold openai_event. keeps_cases. Qed.

Lemma keeps_openai_lines (lines : list jsstring) : keeps (openai_lines lines).
Proof.
  induction lines as [|l lines IH]; cbn [openai_lines]; keeps_cases.
  apply keeps_openai_event.
Qed.

(** *** C5: a line that does not parse *)

(** C5.  In a batch whose non-blank lines are [pre], then a line that
    does not parse, then [post]: the handler does exactly what it does
    on a batch whose lines are [pre] alone, so the lines of [post] have
    no effect and those of [pre] are processed as usual; and neither
    socket is closed. *)
Theorem malformed_line_ends_batch
    (data data' : jsstring) (pre post : list jsstring) (bad : jsstring)
    (s : scope number) :
  nonblank_lines data = pre ++ bad :: post →
  JSON_parse bad = None →
  nonblank_lines data' = pre →
  openai_on_message data s = openai_on_message data' s
  ∧ openai_closed (openai_on_message data s).2 = openai_closed s.2
  ∧ client_closed (openai_on_message data s).2 = client_closed s.2.
Proof.
  intros Hlines Hbad Hpre. unfold openai_on_message.
  rewrite Hlines, Hpre, (openai_lines_break pre post bad s Hbad).
  split; [reflexivity|].
  destruct (keeps_openai_lines pre s) as (_ & _ & _ & Ho & Hc & _). done.
Qed.

(** *** C6: error events *)

(** C6.  An event of type [error] or [response.error] leaves the handler
    at once with nothing sent and nothing changed; wherever its line
    stands in a batch, the batch sends the browser what the lines before
    it sent, and no more. *)
Theorem error_event_sends_nothing (m : value number) (s : scope number) :
  error_event m →
  openai_event m s = (Return, s)
  ∧ ∀ (pre post : list jsstring) (line : jsstring),
      JSON_parse line = Some m →
      (openai_lines (pre ++ line :: post) s).2 = (openai_lines pre s).2.
Proof.
  unfold error_event. intros Herr.
  assert (Hev : ∀ s', openai_event m s' = (Return, s')).
  { intros s'. apply orb_true_iff in Herr. unfold openai_event.
    destruct Herr as [Htype | Htype]; know_type m Htype;
      rewrite Hget; cbv beta iota; rewrite !Htype; eval_equals;
      reflexivity. }
  split; [apply Hev|].
  intros pre post line Hline. rewrite openai_lines_app.
  destruct (forallb _ _); [|reflexivity].
  unfold then_ at 1. destruct (openai_lines pre s) as [[] s1]; try reflexivity.
  cbn [openai_lines]. rewrite Hline. unfold then_. by rewrite Hev.
Qed.

End ProviderFrame.

Section Normalizer.
Context {number : Type} `{Runtime number}.

Lemma str_eqb_nonempty (t : jsstring) : t ≠ [] → str_eqb t [] = false.
Proof. intros Ht. unfold str_eqb. by apply bool_decide_eq_false_2. Qed.

Lemma trim_nonempty (t : jsstring) : trim t ≠ [] → t ≠ [].
Proof. intros Ht ->. by apply Ht. Qed.

End Normalizer.

(** Runs [openai_event] on an event whose type tag is known. *)
Ltac run_event m Htype :=
  know_type m Htype; unfold openai_event;
  match goal with Hget : get m "type" = _ |- _ => rewrite Hget end;
  cbv beta iota; rewrite !Htype; eval_equals.

(** Runs the steps, using the emptiness tests known in the context. *)
Ltac run_steps :=
  repeat (progress
            (unfold when, then_, skip, return_, exec, with_String, forward,
               or_else;
             cbn [truthy ToString negb];
             repeat match goal with
                    | Hne : str_eqb _ [] = false |- _ => rewrite Hne
                    end)).

Section NormalizerForwards.
Context {number : Type} `{Runtime number}.

Lemma delta_event_forwarded (m : value number) (t : jsstring) (s : scope number) :
  delta_event m t → t ≠ [] →
  openai_event m s = (Normal, client_send (Transcript interim t) s).
Proof.
  intros Hshape Ht. pose proof (str_eqb_nonempty t Ht) as Hne.
  destruct Hshape as [Htype Htext | Htype Htext | Htype Htext | Htype Htext
                     | Htype Hdtype Htext].
  - run_event m Htype. rewrite Htext. run_steps. reflexivity.
  - run_event m Htype. rewrite Htext. run_steps. reflexivity.
  - run_event m Htype. rewrite Htext. run_steps. reflexivity.
  - run_event m Htype. rewrite Htext. run_steps. reflexivity.
  - run_event m Htype. rewrite Hdtype. eval_equals. rewrite Htext.
    run_steps. reflexivity.
Qed.

Lemma done_event_forwarded (m : value number) (t : jsstring) (s : scope number) :
  done_event m t → trim t ≠ [] →
  (openai_event m s).2 = client_send (Transcript final (trim t)) s
  ∧ (openai_event m s).1 ≠ Throw.
Proof.
  intros Hshape Htrim.
  pose proof (str_eqb_nonempty _ Htrim) as Hne'.
  pose proof (str_eqb_nonempty _ (trim_nonempty _ Htrim)) as Hne.
  destruct Hshape as [Htype Htext | Htype Htext | Htype Htext | Htype Htext];
    run_event m Htype; rewrite Htext; run_steps; by split.
Qed.

(** *** C4: what the normalizer forwards *)

(** C4, as the code has it.  A delta-shaped event carrying a non-empty
    text [t] forwards exactly one transcript message, on the interim
    channel, with the text [t] as it is, and changes nothing else.  A
    done-shaped event carrying a text [t] whose trimmed form is not
    empty forwards exactly one transcript message, on the final channel,
    with the text [t] trimmed, and changes nothing else.  A delta-shaped
    event with text "hel" followed by a done-shaped event with text
    " lo " gives one interim "hel", then one final "lo". *)
Theorem normalizer_forwards (m : value number) (t : jsstring) (s : scope number) :
  (delta_event m t → t ≠ [] →
   openai_event m s = (Normal, client_send (Transcript interim t) s))
  ∧ (done_event m t → trim t ≠ [] →
     (openai_event m s).2 = client_send (Transcript final (trim t)) s
     ∧ (openai_event m s).1 ≠ Throw)
  ∧ (∀ (m1 m2 : value number) (line1 line2 : jsstring),
       JSON_parse line1 = Some m1 → JSON_parse line2 = Some m2 →
       delta_event m1 (js "hel") → done_event m2 (js " lo ") →
       (openai_lines [line1; line2] s).2
       = (s.1,
          {| language := language s.2;
             openai_readyState := openai_readyState s.2;
             openai_sent := openai_sent s.2;
             client_sent := client_sent s.2
                            ++ [Transcript interim (js "hel");
                                Transcript final (js "lo")];
             openai_closed := openai_closed s.2;
             client_closed := client_closed s.2 |})).
Proof.
  split; [apply delta_event_forwarded|].
  split; [apply done_event_forwarded|].
  intros m1 m2 line1 line2 Hl1 Hl2 Hdelta Hdone.
  cbn [openai_lines]. rewrite Hl1, Hl2. unfold then_ at 1.
  rewrite (delta_event_forwarded m1 (js "hel") s Hdelta) by discriminate.
  unfold then_.
  destruct (done_event_forwarded m2 (js " lo ")
              (client_send (Transcript interim (js "hel")) s) Hdone)
    as [Hstate Hflow]; [vm_compute; discriminate|].
  destruct (openai_event m2 _) as [[] s2]; cbn [fst snd] in *;
    try done; subst s2; run_effects; rewrite <- app_assoc; reflexivity.
Qed.

End NormalizerForwards.

(** C4 as stated fails on a done-shaped event whose text is blank: the
    event [{type: 'response.text.done', text: ' '}] carries the text
    " ", and no final message is forwarded for it. *)
Lemma blank_done_event_counterexample :
  ¬ (∀ (m : value Z) (t : jsstring) (s : scope Z),
       done_event (H := sample_host) m t →
       Transcript final (trim t)
       ∈ client_sent (openai_event (H := sample_host) m s).2.2).
Proof.
  intros Hclaim.
  specialize (Hclaim (object_value text_done_blank) (js " ")
                (fresh_scope 0 false)).
  assert (Hshape : done_event (H := sample_host)
                     (object_value text_done_blank) (js " ")).
  { apply text_done; vm_compute; reflexivity. }
  apply Hclaim in Hshape. vm_compute in Hshape. inversion Hshape.
Qed.

Lemma normalizer_forwards_witness :
  (openai_lines (H := sample_host)
     [object_text text_delta_hel; object_text text_done_lo]
     (fresh_scope 0 false)).2
  = ({| approxB64SinceCommit := 0; activeResponse := false |},
     {| language := VStr (js "en");
        openai_readyState := OPEN;
        openai_sent := [];
        client_sent := [Transcript interim (js "hel");
                        Transcript final (js "lo")];
        openai_closed := false;
        client_closed := false |}).
Proof.
  destruct (normalizer_forwards (H := sample_host)
              (object_value text_delta_hel) (js "hel") (fresh_scope 0 false))
    as (_ & _ & Hpair).
  apply (Hpair (object_value text_delta_hel) (object_value text_done_lo)).
  - vm_compute. reflexivity.
  - vm_compute. reflexivity.
  - apply text_delta; vm_compute; reflexivity.
  - apply text_done; vm_compute; reflexivity.
Defined.

Lemma malformed_line_ends_batch_witness :
  openai_on_message (H := sample_host) batch_with_garbage (fresh_scope 0 false)
  = openai_on_message (H := sample_host) (object_text text_delta_hel)
      (fresh_scope 0 false)
  ∧ openai_closed
      (openai_on_message (H := sample_host) batch_with_garbage
         (fresh_scope 0 false)).2 = false
  ∧ client_closed
      (openai_on_message (H := sample_host) batch_with_garbage
         (fresh_scope 0 false)).2 = false.
Proof.
  apply (malformed_line_ends_batch (H := sample_host) batch_with_garbage
           (object_text text_delta_hel) [object_text text_delta_hel]
           [object_text text_done_lo] (js "oops") (fresh_scope 0 false)).
  - vm_compute. reflexivity.
  - vm_compute. reflexivity.
  - vm_compute. reflexivity.
Defined.

Lemma error_event_sends_nothing_witness :
  openai_event (H := sample_host) (object_value error_overloaded)
    (fresh_scope 0 true)
  = (Return, fresh_scope 0 true).
Proof.
  apply (error_event_sends_nothing (H := sample_host)
           (object_value error_overloaded) (fresh_scope 0 true)).
  vm_compute. reflexivity.
Defined.

(** ** C2: the counters and the connections *)

(** What is per connection: an event of one connection leaves the
    language and the sockets of every other connection as they were.
    The two counters are not part of that. *)
Lemma other_connections_untouched {number : Type} `{Runtime number}
    (srv : server number) (a b : nat) (h : scope number → scope number) :
  a ≠ b → connections (in_connection a h srv) !! b = connections srv !! b.
Proof.
  intros Hab. unfold in_connection.
  destruct (connections srv !! a); [|reflexivity].
  cbn [connections]. by rewrite lookup_insert_ne.
Qed.

(** C2, on the code.  Two connections are open, each with its provider
    socket open, and the second has sent no audio.  If nothing else
    happens, its flush sends nothing upstream: its provider has only
    the session update of the opening.  If the first connection has
    appended 6400 characters of audio, the flush of the second sends a
    commit and a request-create on the second's provider socket: the
    estimate it read is the one the first wrote.  The same happens when
    the first connection was closed before the second was opened: the
    estimate outlives the connection. *)
Theorem counters_shared_between_connections :
  let append := ClientMessage 1 (object_text (append_of_length 6400)) in
  let flush2 := ClientMessage 2 (object_text flush) in
  let alone :=
    run (H := sample_host)
      [Connection 1; OpenaiOpen 1; Connection 2; OpenaiOpen 2; flush2] boot in
  let beside :=
    run (H := sample_host)
      [Connection 1; OpenaiOpen 1; Connection 2; OpenaiOpen 2; append; flush2]
      boot in
  let after :=
    run (H := sample_host)
      [Connection 1; OpenaiOpen 1; append; ClientClose 1;
       Connection 2; OpenaiOpen 2; flush2] boot in
  openai_sent <$> connections alone !! 2%nat
  = Some [SessionUpdate (VStr (js "en"))]
  ∧ openai_sent <$> connections beside !! 2%nat
    = Some [SessionUpdate (VStr (js "en")); AudioCommit; ResponseCreate]
  ∧ openai_sent <$> connections after !! 2%nat
    = Some [SessionUpdate (VStr (js "en")); AudioCommit; ResponseCreate]
  ∧ shared beside
    = {| approxB64SinceCommit := 0; activeResponse := true |}.
Proof.
  vm_compute. repeat split; reflexivity.
Qed.

(** ** The definitions on small inputs *)

Example trim_strips_both_ends : trim (js "  a b  ") = js "a b".
Proof. reflexivity. Qed.

Example split_keeps_empty_pieces :
  split 10 (js "a" ++ [10%N] ++ js "b" ++ [10%N]) = [js "a"; js "b"; []].
Proof. reflexivity. Qed.

Example nonblank_lines_drops_blank_lines :
  nonblank_lines (js "a" ++ [10%N; 32%N; 10%N] ++ js "b" ++ [10%N])
  = [js "a"; js "b"].
Proof. reflexivity. Qed.

Example base64_of_three_samples :
  Page.base64FromPCM16 [1; 2; -1] = js "AQACAP//".
Proof. reflexivity. Qed.

Example downsample_at_36k :
  Page.downsampleTo24kHz (T := spec_float)
    [of_Z 1; of_Z 2; of_Z 3; of_Z 4; of_Z 5; of_Z 6; of_Z 7] 36000
  = Some [div (of_Z 3) (of_Z 2); of_Z 3; div (of_Z 9) (of_Z 2); of_Z 6].
Proof. vm_compute. reflexivity. Qed.

Example downsample_bad_rate :
  Page.downsampleTo24kHz (T := spec_float) [of_Z 1] 0 = None.
Proof. reflexivity. Qed.

Example quantize_out_of_range_inputs :
  Page.floatToPCM16 (T := spec_float)
    [of_Z 7; of_Z (-7); S754_nan; S754_infinity false; S754_infinity true]
  = [32767; -32768; 0; 32767; -32768].
Proof. vm_compute. reflexivity. Qed.

Example content_part_done_tests_before_trimming :
  openai_event (H := sample_host)
    (VObj [(js "type", VStr (js "response.content_part.done"));
           (js "part", VObj [(js "transcript", VStr (js "  "))])])
    (fresh_scope 0 false)
  = (Return, client_send (Transcript final []) (fresh_scope 0 false)).
Proof. vm_compute. reflexivity. Qed.

Example null_event_throws :
  openai_event (H := sample_host) VNull (fresh_scope 0 true)
  = (Throw, fresh_scope 0 true).
Proof. reflexivity. Qed.

Example response_completed_joins_contents :
  openai_event (H := sample_host)
    (VObj [(js "type", VStr (js "response.completed"));
           (js "response",
            VObj [(js "output_text",
                   VArr [VObj [(js "content", VStr (js " a"))]; VNull;
                         VObj [(js "content", VStr (js "b "))]])])])
    (fresh_scope 0 false)
  = (Normal, client_send (Transcript final (js "a  b")) (fresh_scope 0 false)).
Proof. vm_compute. reflexivity. Qed.

Example lifecycle_events_set_the_flag :
  (openai_event (H := sample_host)
     (object_value [("type", "response.created")%string]) (fresh_scope 9 false)).2.1
  = {| approxB64SinceCommit := 9; activeResponse := true |}
  ∧ (openai_event (H := sample_host)
       (object_value [("type", "response.done")%string]) (fresh_scope 9 true)).2.1
    = {| approxB64SinceCommit := 9; activeResponse := false |}.
Proof. split; vm_compute; reflexivity. Qed.

(* ================================================================== *)
(** * Part III: further properties of the code                          *)
(* ================================================================== *)

(** ** Trimming *)

Lemma trimStart_length (s : jsstring) : (length (trimStart s) ≤ length s)%nat.
Proof.
  induction s as [|c s IH]; simpl; [lia|]. destruct (is_ws c); simpl; lia.
Qed.

Lemma trimEnd_length (s : jsstring) : (length (trimEnd s) ≤ length s)%nat.
Proof.
  unfold trimEnd. rewrite length_rev.
  pose proof (trimStart_length (rev s)) as Hlen. by rewrite length_rev in Hlen.
Qed.

Lemma trimStart_head (s r : jsstring) (c : N) :
  trimStart s = c :: r → is_ws c = false.
Proof.
  induction s as [|a s IH]; simpl; [discriminate|].
  destruct (is_ws a) eqn:Ha; [exact IH|]. by intros [= <- _].
Qed.

Lemma trimStart_nonws (c : N) (r : jsstring) :
  is_ws c = false → trimStart (c :: r) = c :: r.
Proof. intros Hc. simpl. by rewrite Hc. Qed.

Lemma trimStart_idem (s : jsstring) : trimStart (trimStart s) = trimStart s.
Proof.
  destruct (trimStart s) as [|c r] eqn:Hs; [reflexivity|].
  apply trimStart_nonws. by apply (trimStart_head s r).
Qed.

Lemma trimStart_app_nonws (l r : jsstring) (c : N) :
  is_ws c = false → trimStart (l ++ c :: r) = trimStart l ++ c :: r.
Proof.
  intros Hc. induction l as [|a l IH]; simpl.
  - by rewrite Hc.
  - destruct (is_ws a); [exact IH | reflexivity].
Qed.

Lemma trimEnd_cons_nonws (c : N) (r : jsstring) :
  is_ws c = false → trimEnd (c :: r) = c :: trimEnd r.
Proof.
  intros Hc. unfold trimEnd. simpl rev.
  rewrite (trimStart_app_nonws (rev r) [] c Hc), rev_app_distr. reflexivity.
Qed.

Lemma trimEnd_app_nonws (l r : jsstring) (c : N) :
  is_ws c = false → trimEnd (l ++ c :: r) = l ++ c :: trimEnd r.
Proof.
  intros Hc. unfold trimEnd. rewrite rev_app_distr. simpl rev.
  rewrite <- app_assoc. simpl app.
  rewrite (trimStart_app_nonws (rev r) (rev l) c Hc), rev_app_distr.
  simpl rev. rewrite rev_involutive, <- app_assoc. reflexivity.
Qed.

Lemma trimEnd_idem (s : jsstring) : trimEnd (trimEnd s) = trimEnd s.
Proof. unfold trimEnd. by rewrite rev_involutive, trimStart_idem. Qed.

Lemma trim_idem (s : jsstring) : trim (trim s) = trim s.
Proof.
  unfold trim. destruct (trimStart s) as [|c r] eqn:Hs; [reflexivity|].
  pose proof (trimStart_head s r c Hs) as Hc.
  rewrite (trimEnd_cons_nonws c r Hc), (trimStart_nonws c _ Hc).
  rewrite <- (trimEnd_cons_nonws c r Hc). apply trimEnd_idem.
Qed.

(** A trimmed string does not start with white space ... *)
Lemma trimmed_head (c : N) (r : jsstring) :
  trim (c :: r) = c :: r → is_ws c = false.
Proof.
  intros Htrim. destruct (is_ws c) eqn:Hc; [|reflexivity].
  assert (Hlen : (length (trim (c :: r)) ≤ length r)%nat).
  { unfold trim. simpl trimStart. rewrite Hc.
    etransitivity; [apply trimEnd_length | apply trimStart_length]. }
  rewrite Htrim in Hlen. simpl in Hlen. lia.
Qed.

(** ... nor end with it. *)
Lemma trimmed_last (l : jsstring) (c : N) :
  trim (l ++ [c]) = l ++ [c] → is_ws c = false.
Proof.
  intros Htrim. destruct (is_ws c) eqn:Hc; [|reflexivity].
  assert (Hend : ∀ x, (length (trimEnd (x ++ [c])) ≤ length x)%nat).
  { intros x. unfold trimEnd. rewrite rev_app_distr. simpl rev. simpl app.
    simpl trimStart. rewrite Hc, length_rev.
    pose proof (trimStart_length (rev x)) as Hx. by rewrite length_rev in Hx. }
  assert (Hlen : (length (trim (l ++ [c])) ≤ length l)%nat).
  { unfold trim. destruct l as [|a l].
    - simpl. by rewrite Hc.
    - simpl app. simpl trimStart. destruct (is_ws a) eqn:Ha.
      + etransitivity; [apply trimEnd_length|].
        etransitivity; [apply trimStart_length|].
        rewrite length_app. simpl. lia.
      + change (a :: l ++ [c]) with ((a :: l) ++ [c]). apply Hend. }
  rewrite Htrim, length_app in Hlen. simpl in Hlen. lia.
Qed.

(** A string with no white space at either end is its own trim. *)
Lemma trim_fixed (c d : N) (mid : jsstring) :
  is_ws c = false → is_ws d = false →
  trim (c :: mid ++ [d]) = c :: mid ++ [d].
Proof.
  intros Hc Hd. unfold trim. rewrite (trimStart_nonws c _ Hc).
  change (c :: mid ++ [d]) with ((c :: mid) ++ d :: []).
  by rewrite (trimEnd_app_nonws (c :: mid) [] d Hd).
Qed.

(** ** The transcript composer *)

(** X1.  [composeTranscript] never returns a string with white space at
    either end; with no finals it is the trimmed interim, and with an
    empty interim it is the trimmed, space-joined finals. *)
Theorem composeTranscript_trimmed (finals : list jsstring) (interim : jsstring) :
  trim (Page.composeTranscript finals interim)
  = Page.composeTranscript finals interim
  ∧ Page.composeTranscript [] interim = trim interim
  ∧ Page.composeTranscript finals [] = trim (join (js " ") finals).
Proof.
  split; [apply trim_idem|]. split; [reflexivity|].
  unfold Page.composeTranscript. cbn zeta.
  replace (negb (str_eqb (trim (join (js " ") finals)) []) && negb (str_eqb [] []))
    with false by (by rewrite andb_comm).
  rewrite !app_nil_r. apply trim_idem.
Qed.

(** X2.  When the joined finals are not blank and the interim is a
    non-empty string without surrounding white space, the result is the
    trimmed finals, one space, and the interim. *)
Theorem composeTranscript_single_space
    (finals : list jsstring) (interim : jsstring) :
  trim (join (js " ") finals) ≠ [] →
  trim interim = interim → interim ≠ [] →
  Page.composeTranscript finals interim
  = trim (join (js " ") finals) ++ js " " ++ interim.
Proof.
  intros Hbase Htrim Hne. unfold Page.composeTranscript. cbn zeta.
  rewrite (str_eqb_nonempty _ Hbase), (str_eqb_nonempty _ Hne). cbn [negb andb].
  pose proof (trim_idem (join (js " ") finals)) as Hidem.
  destruct (trim (join (js " ") finals)) as [|c r]; [done|].
  pose proof (trimmed_head c r Hidem) as Hc.
  destruct (exists_last Hne) as (l & d & ->).
  pose proof (trimmed_last l d Htrim) as Hd.
  replace ((c :: r) ++ js " " ++ l ++ [d])
    with (c :: (r ++ js " " ++ l) ++ [d])
    by (by rewrite <- !app_assoc).
  apply (trim_fixed c d _ Hc Hd).
Qed.

Lemma composeTranscript_single_space_witness :
  Page.composeTranscript [js "hello"; js " world "] (js "there")
  = js "hello  world there".
Proof.
  rewrite (composeTranscript_single_space [js "hello"; js " world "] (js "there"));
    [reflexivity | discriminate | reflexivity | discriminate].
Defined.

(** ** Interim smoothing *)

Lemma startsWith_refl (s : jsstring) : startsWith s s = true.
Proof. apply startsWith_app. exists []. by rewrite app_nil_r. Qed.

(** X3.  The smoothed interim always starts with the new interim, is one
    of the two strings it was given, and smoothing it again with the
    same new interim changes nothing. *)
Theorem smoothInterim_extends_next (prev next : jsstring) :
  startsWith (Page.smoothInterim prev next) next = true
  ∧ (Page.smoothInterim prev next = prev ∨ Page.smoothInterim prev next = next)
  ∧ Page.smoothInterim (Page.smoothInterim prev next) next
    = Page.smoothInterim prev next.
Proof.
  assert (Hsame : ∀ n : jsstring, Page.smoothInterim n n = n).
  { intros [|c n]; [reflexivity|]. unfold Page.smoothInterim.
    by rewrite Nat.ltb_irrefl, andb_false_r. }
  destruct prev as [|a prev].
  { simpl. split; [apply startsWith_refl|]. split; [by right | apply Hsame]. }
  destruct next as [|b next].
  { simpl. split; [reflexivity|]. split; [by right | reflexivity]. }
  assert (Hr : Page.smoothInterim (a :: prev) (b :: next)
               = if startsWith (a :: prev) (b :: next)
                    && (length (b :: next) <? length (a :: prev))%nat
                 then a :: prev else b :: next) by reflexivity.
  destruct (startsWith (a :: prev) (b :: next)
            && (length (b :: next) <? length (a :: prev))%nat) eqn:Hkeep;
    rewrite Hr.
  - split; [by apply andb_true_iff in Hkeep as [? _]|].
    split; [by left|]. unfold Page.smoothInterim. by rewrite Hkeep.
  - split; [apply startsWith_refl|]. split; [by right | apply Hsame].
Qed.

(** ** Resampling at other rates *)

Section ResamplingRates.
Context {T : Type} `{JSNumber T}.

(** One span at an integer ratio [k]: from [acc] the loop reads the [n]
    samples that remain of the span and stops. *)
Lemma take_span_exact (k i n : nat) (rest : list T) (acc : Z) (sum : T) (count : Z) :
  acc + Z.of_nat n = (Z.of_nat i + 1) * Z.of_nat k →
  (n ≤ length rest)%nat →
  Page.take_span (24000 * Z.of_nat k) (Z.of_nat i + 1) acc rest sum count
  = (acc + Z.of_nat n, drop n rest, fold_left add (take n rest) sum,
     count + Z.of_nat n).
Proof.
  revert rest acc sum count.
  induction n as [|n IH]; intros rest acc sum count Hacc Hlen;
    match type of Hacc with
    | ?reached = _ =>
        assert (Hbound : (Z.of_nat i + 1) * (24000 * Z.of_nat k)
                         = 24000 * reached)
          by (rewrite Hacc; ring)
    end.
  - rewrite !Z.add_0_r. destruct rest as [|x rest].
    + reflexivity.
    + cbn [Page.take_span take drop fold_left]. rewrite Hbound.
      replace (acc * 24000 <? 24000 * (acc + Z.of_nat 0))
        with false by (symmetry; apply Z.ltb_ge; lia).
      reflexivity.
  - destruct rest as [|x rest]; [simpl in Hlen; lia|].
    cbn [Page.take_span take drop fold_left]. rewrite Hbound.
    replace (acc * 24000 <? 24000 * (acc + Z.of_nat (Datatypes.S n)))
      with true by (symmetry; apply Z.ltb_lt; lia).
    rewrite IH by (simpl in Hlen; lia).
    replace (acc + 1 + Z.of_nat n) with (acc + Z.of_nat (Datatypes.S n)) by lia.
    replace (count + 1 + Z.of_nat n) with (count + Z.of_nat (Datatypes.S n))
      by lia.
    reflexivity.
Qed.

Lemma downsample_loop_factor (k : nat) (samples : list T) (len n : nat) :
  (1 ≤ k)%nat → (n ≤ length samples / k)%nat → (n ≤ len)%nat →
  Page.for_range n (Page.downsample_step (24000 * Z.of_nat k))
    {| Page.rs_acc := 0; Page.rs_rest := samples;
       Page.rs_out := replicate len (of_Z 0) |}
  = {| Page.rs_acc := Z.of_nat k * Z.of_nat n;
       Page.rs_rest := drop (k * n) samples;
       Page.rs_out := map (λ i, Page.span_mean k i samples) (seq 0 n)
                      ++ replicate (len - n) (of_Z 0) |}.
Proof.
  intros Hk. induction n as [|n IH]; intros Hn Hlen.
  - simpl. rewrite Nat.mul_0_r, Z.mul_0_r, Nat.sub_0_r. reflexivity.
  - rewrite for_range_S, IH by lia. unfold Page.downsample_step.
    cbn [Page.rs_acc Page.rs_rest Page.rs_out].
    assert (Hfit : (k * Datatypes.S n ≤ length samples)%nat).
    { pose proof (Nat.div_mod_eq (length samples) k). nia. }
    rewrite (take_span_exact k n k) by (rewrite ?length_drop; lia).
    rewrite drop_drop, Z.add_0_l.
    replace (Z.of_nat k =? 0) with false by (symmetry; apply Z.eqb_neq; lia).
    f_equal; [lia | f_equal; lia |].
    rewrite seq_S, map_app. cbn [map Nat.add].
    replace (len - n)%nat with (Datatypes.S (len - Datatypes.S n)) by lia.
    cbn [replicate]. rewrite <- app_assoc. cbn [app].
    assert (Hpre : length (map (λ i, Page.span_mean k i samples) (seq 0 n)) = n)
      by (by rewrite length_map, length_seq).
    rewrite <- Hpre at 1. rewrite <- (Nat.add_0_r (length _)).
    rewrite insert_app_r. reflexivity.
Qed.

(** X5.  At a rate that is [k] times 24000 Hz, [k] at least 2, the
    output has [floor(length / k)] samples and sample [i] is the mean of
    the source samples [k*i] to [k*i + k - 1]; the source samples after
    the last full span are dropped. *)
Theorem downsampleTo24kHz_integer_factor (k : nat) (samples : list T) :
  (2 ≤ k)%nat →
  Page.downsampleTo24kHz samples (24000 * Z.of_nat k)
  = Some (map (λ i, Page.span_mean k i samples)
            (seq 0 (length samples / k))).
Proof.
  intros Hk. unfold Page.downsampleTo24kHz.
  replace (24000 * Z.of_nat k =? 24000) with false
    by (symmetry; apply Z.eqb_neq; lia).
  replace (24000 * Z.of_nat k <=? 0) with false
    by (symmetry; apply Z.leb_gt; lia).
  set (newLen := Z.to_nat (Z.of_nat (length samples) * 24000
                           / (24000 * Z.of_nat k))).
  assert (HnewLen : newLen = (length samples / k)%nat).
  { unfold newLen. rewrite <- (Nat2Z.id (length samples / k)). f_equal.
    rewrite Nat2Z.inj_div, (Z.mul_comm _ 24000).
    apply Z.div_mul_cancel_l; lia. }
  rewrite downsample_loop_factor by lia. cbn [Page.rs_out].
  by rewrite Nat.sub_diag, app_nil_r, HnewLen.
Qed.

End ResamplingRates.

Lemma downsampleTo24kHz_integer_factor_witness :
  Page.downsampleTo24kHz (T := spec_float)
    [of_Z 1; of_Z 2; of_Z 3; of_Z 6; of_Z 5; of_Z 5; of_Z 5; of_Z 5; of_Z 9]
    96000
  = Some [of_Z 3; of_Z 5].
Proof.
  rewrite (downsampleTo24kHz_integer_factor (T := spec_float) 4); [|lia].
  vm_compute. reflexivity.
Defined.

Section HalfRate.
Context {T : Type} `{JSNumber T}.

Lemma zero_stuffed_length (l : list T) :
  length (Page.zero_stuffed l) = (2 * length l)%nat.
Proof.
  unfold Page.zero_stuffed. induction l as [|x l IH]; [reflexivity|].
  cbn [flat_map app length]. rewrite IH. lia.
Qed.

(** The span of an even output index at ratio 1/2 holds one sample ... *)
Lemma take_span_half_even (j : nat) (x : T) (rest : list T) (sum : T) :
  Page.take_span 12000 (Z.of_nat (2 * j) + 1) (Z.of_nat j) (x :: rest) sum 0
  = (Z.of_nat j + 1, rest, add sum x, 1).
Proof.
  cbn [Page.take_span].
  replace (Z.of_nat j * 24000 <? (Z.of_nat (2 * j) + 1) * 12000) with true
    by (symmetry; apply Z.ltb_lt; lia).
  destruct rest as [|y rest]; cbn [Page.take_span]; [reflexivity|].
  replace ((Z.of_nat j + 1) * 24000 <? (Z.of_nat (2 * j) + 1) * 12000)
    with false by (symmetry; apply Z.ltb_ge; lia).
  reflexivity.
Qed.

(** ... and the span of the odd index after it holds none. *)
Lemma take_span_half_odd (j : nat) (rest : list T) (sum : T) :
  Page.take_span 12000 (Z.of_nat (Datatypes.S (2 * j)) + 1) (Z.of_nat j + 1)
    rest sum 0
  = (Z.of_nat j + 1, rest, sum, 0).
Proof.
  destruct rest as [|y rest]; cbn [Page.take_span]; [reflexivity|].
  replace ((Z.of_nat j + 1) * 24000
           <? (Z.of_nat (Datatypes.S (2 * j)) + 1) * 12000)
    with false by (symmetry; apply Z.ltb_ge; lia).
  reflexivity.
Qed.

Lemma downsample_loop_half (samples : list T) (len j : nat) :
  (j ≤ length samples)%nat → (2 * j ≤ len)%nat →
  Page.for_range (2 * j) (Page.downsample_step 12000)
    {| Page.rs_acc := 0; Page.rs_rest := samples;
       Page.rs_out := replicate len (of_Z 0) |}
  = {| Page.rs_acc := Z.of_nat j;
       Page.rs_rest := drop j samples;
       Page.rs_out := Page.zero_stuffed (take j samples)
                      ++ replicate (len - 2 * j) (of_Z 0) |}.
Proof.
  induction j as [|j IH]; intros Hj Hlen.
  - simpl. by rewrite Nat.sub_0_r.
  - replace (2 * Datatypes.S j)%nat with (Datatypes.S (Datatypes.S (2 * j)))
      by lia.
    rewrite !for_range_S, IH by lia.
    destruct (lookup_lt_is_Some_2 samples j ltac:(lia)) as [x Hx].
    unfold Page.downsample_step at 2.
    cbn [Page.rs_acc Page.rs_rest Page.rs_out].
    rewrite (drop_S _ _ _ Hx), take_span_half_even.
    unfold Page.downsample_step.
    cbn [Page.rs_acc Page.rs_rest Page.rs_out].
    rewrite take_span_half_odd. cbn [Z.eqb].
    f_equal; [lia|].
    assert (Hpre : length (Page.zero_stuffed (take j samples)) = (2 * j)%nat).
    { rewrite zero_stuffed_length, length_take. lia. }
    rewrite !insert_app_r_alt by lia. rewrite Hpre.
    replace (2 * j - 2 * j)%nat with 0%nat by lia.
    replace (Datatypes.S (2 * j) - 2 * j)%nat with 1%nat by lia.
    replace (len - 2 * j)%nat
      with (Datatypes.S (Datatypes.S (len - Datatypes.S (Datatypes.S (2 * j)))))
      by lia.
    cbn [replicate]. cbn.
    rewrite (take_S_r _ _ _ Hx). unfold Page.zero_stuffed.
    rewrite flat_map_app. cbn [flat_map app]. rewrite <- app_assoc.
    reflexivity.
Qed.

(** X6.  At 12000 Hz, half the target rate, nothing is interpolated:
    the output is twice as long as the input and alternates each source
    sample with a zero. *)
Theorem downsampleTo24kHz_half_rate (samples : list T) :
  Page.downsampleTo24kHz samples 12000 = Some (Page.zero_stuffed samples).
Proof.
  unfold Page.downsampleTo24kHz. cbn [Z.eqb Pos.eqb Z.leb Z.compare].
  set (newLen := Z.to_nat (Z.of_nat (length samples) * 24000 / 12000)).
  assert (HnewLen : newLen = (2 * length samples)%nat).
  { unfold newLen. rewrite <- (Nat2Z.id (2 * length samples)). f_equal.
    replace (Z.of_nat (length samples) * 24000)
      with (Z.of_nat (2 * length samples) * 12000) by lia.
    apply Z.div_mul. lia. }
  rewrite HnewLen, downsample_loop_half by lia. cbn [Page.rs_out].
  by rewrite Nat.sub_diag, app_nil_r, firstn_all.
Qed.

End HalfRate.

(** ** The frame encoder *)

(** A loop that appends the element [i] of [l] at each step copies [l]. *)
Lemma for_range_collect {A : Type} (l : list A) (n : nat) :
  (n ≤ length l)%nat →
  Page.for_range n
    (λ i acc, match l !! i with
              | Some b => acc ++ [b]
              | None => acc
              end) []
  = take n l.
Proof.
  induction n as [|n IH]; intros Hn; [reflexivity|].
  rewrite for_range_S, IH by lia.
  destruct (lookup_lt_is_Some_2 l n ltac:(lia)) as [x Hx].
  by rewrite Hx, (take_S_r _ _ _ Hx).
Qed.

(** Induction on a list three elements at a time. *)
Lemma list_triple_ind {A : Type} (P : list A → Prop) :
  P [] → (∀ a, P [a]) → (∀ a b, P [a; b]) →
  (∀ a b c l, P l → P (a :: b :: c :: l)) → ∀ l, P l.
Proof.
  intros H0 H1 H2 H3 l.
  cut (P l ∧ (∀ a, P (a :: l)) ∧ (∀ a b, P (a :: b :: l))); [tauto|].
  induction l as [|c l (IH0 & IH1 & IH2)]; [by auto|].
  split; [apply IH1|]. split; [intros a; apply IH2|].
  intros a b. by apply H3.
Qed.

Lemma btoa_length (bin : jsstring) :
  Z.of_nat (length (Page.btoa bin)) = 4 * ((Z.of_nat (length bin) + 2) / 3).
Proof.
  induction bin as [| a | a b | a b c l IH] using list_triple_ind;
    try reflexivity.
  cbn [Page.btoa app length]. rewrite !Nat2Z.inj_succ, IH.
  replace (Z.succ (Z.succ (Z.succ (Z.of_nat (length l)))) + 2)
    with (Z.of_nat (length l) + 2 + 1 * 3) by lia.
  rewrite Z.div_add by lia. lia.
Qed.

Lemma b64_digit_char (n : N) : Page.base64_char (Page.b64_digit n) = true.
Proof.
  unfold Page.b64_digit, Page.base64_char.
  destruct (N.ltb_spec n 26).
  { replace (65 <=? 65 + n)%N with true by (symmetry; apply N.leb_le; lia).
    replace (65 + n <=? 90)%N with true by (symmetry; apply N.leb_le; lia).
    reflexivity. }
  destruct (N.ltb_spec n 52).
  { replace (97 <=? 97 + (n - 26))%N with true
      by (symmetry; apply N.leb_le; lia).
    replace (97 + (n - 26) <=? 122)%N with true
      by (symmetry; apply N.leb_le; lia).
    by rewrite orb_true_r. }
  destruct (N.ltb_spec n 62).
  { replace (48 <=? 48 + (n - 52))%N with true
      by (symmetry; apply N.leb_le; lia).
    replace (48 + (n - 52) <=? 57)%N with true
      by (symmetry; apply N.leb_le; lia).
    by rewrite !orb_true_r. }
  by destruct (n =? 62)%N.
Qed.

Lemma btoa_alphabet (bin : jsstring) :
  Forall (λ c, Page.base64_char c = true) (Page.btoa bin).
Proof.
  induction bin as [| a | a b | a b c l IH] using list_triple_ind;
    cbn [Page.btoa app];
    repeat (apply Forall_cons; split; [apply b64_digit_char || reflexivity|]);
    by auto.
Qed.

Lemma base64FromPCM16_btoa (i16 : list Z) :
  Page.base64FromPCM16 i16
  = Page.btoa (concat (map Page.bytes_of_int16 i16)).
Proof.
  unfold Page.base64FromPCM16. cbn zeta.
  by rewrite for_range_collect, firstn_all by lia.
Qed.

Lemma int16_bytes_length (i16 : list Z) :
  length (concat (map Page.bytes_of_int16 i16)) = (2 * length i16)%nat.
Proof.
  induction i16 as [|z l IH]; [reflexivity|].
  cbn [map concat]. rewrite length_app, IH. simpl. lia.
Qed.

(** X7.  The encoding of [n] samples has [4 * ceil(2n / 3)] characters,
    all of the base64 alphabet; so a frame of exactly 2400 samples, the
    page's threshold, has exactly 6400 characters, the relay's commit
    threshold. *)
Theorem base64FromPCM16_shape (i16 : list Z) :
  Z.of_nat (length (Page.base64FromPCM16 i16))
  = 4 * ((2 * Z.of_nat (length i16) + 2) / 3)
  ∧ Forall (λ c, Page.base64_char c = true) (Page.base64FromPCM16 i16)
  ∧ (length i16 = Page.THRESHOLD_SAMPLES_24K →
     Z.of_nat (length (Page.base64FromPCM16 i16)) = Relay.MIN_B64_FOR_100MS).
Proof.
  rewrite base64FromPCM16_btoa.
  assert (Hlen : Z.of_nat (length (Page.btoa (concat (map Page.bytes_of_int16 i16))))
                 = 4 * ((2 * Z.of_nat (length i16) + 2) / 3)).
  { rewrite btoa_length, int16_bytes_length. do 3 f_equal. lia. }
  split; [exact Hlen|]. split; [apply btoa_alphabet|].
  intros H2400. rewrite Hlen, H2400. reflexivity.
Qed.

Lemma base64FromPCM16_shape_witness :
  Z.of_nat (length (Page.base64FromPCM16 (replicate 2400 0))) = 6400.
Proof.
  destruct (base64FromPCM16_shape (replicate 2400 0)) as (_ & _ & Hframe).
  apply Hframe. apply length_replicate.
Defined.

(** ** The sample accumulator over a capture *)

Section AccumulatorFacts.
Context {T : Type} `{JSNumber T}.

(** The handler changes neither the sample rate nor the state of the
    socket, and makes no socket. *)
Lemma port_onmessage_refs (e : Page.worklet_data T) (st : Page.capture T) :
  Page.sampleRateRef (Page.port_onmessage e st) = Page.sampleRateRef st
  ∧ Page.ws_readyState (Page.port_onmessage e st) = Page.ws_readyState st
  ∧ (Page.wsRef st = None → Page.wsRef (Page.port_onmessage e st) = None).
Proof.
  unfold Page.port_onmessage, Page.ws_send. destruct e as [f32|]; [|done].
  destruct (Page.downsampleTo24kHz f32 _) as [down|]; [|done].
  destruct (_ <=? _)%nat; [|done].
  destruct (Page.wsRef st) as [sent|]; [|done].
  by destruct (Page.ws_readyState st).
Qed.

Lemma port_onmessage_keeps (e : Page.worklet_data T) (st : Page.capture T) :
  Page.pending_below_threshold st →
  Page.send_returns st →
  Page.pending_below_threshold (Page.port_onmessage e st)
  ∧ Page.send_returns (Page.port_onmessage e st).
Proof.
  intros Hinv Hsend. split.
  - unfold Page.port_onmessage, Page.ws_send. destruct e as [f32|]; [|done].
    destruct (Page.downsampleTo24kHz f32 _) as [down|]; [|done].
    destruct (Nat.leb_spec Page.THRESHOLD_SAMPLES_24K
                (length (Page.appended (Page.pendingSamplesRef st) down)))
      as [Hge|Hlt]; [|done].
    destruct Hsend as [-> | Hready]; [done|].
    destruct (Page.wsRef st) as [sent|]; [|done].
    by destruct (Page.ws_readyState st).
  - destruct (port_onmessage_refs e st) as (_ & Hready & Hnone).
    destruct Hsend as [Hws | Hopen]; [left; auto | right; by rewrite Hready].
Qed.

(** X8.  With no socket, or a socket that is not connecting, the
    pending buffer never reaches the threshold between two events: if
    it is below 2400 samples before a capture, it is below 2400 samples
    after every event of it.  The handler never changes the sample rate
    it resamples from, and without a socket none appears. *)
Theorem accumulator_stays_below_threshold
    (es : list (Page.worklet_data T)) (st : Page.capture T) :
  Page.pending_below_threshold st →
  Page.send_returns st →
  Page.pending_below_threshold (Page.capture_run es st)
  ∧ Page.sampleRateRef (Page.capture_run es st) = Page.sampleRateRef st
  ∧ (Page.wsRef st = None → Page.wsRef (Page.capture_run es st) = None).
Proof.
  revert st. induction es as [|e es IH]; intros st Hinv Hsend; [done|].
  destruct (port_onmessage_keeps e st Hinv Hsend) as (Hinv' & Hsend').
  destruct (port_onmessage_refs e st) as (Hrate & _ & Hws).
  destruct (IH _ Hinv' Hsend') as (Hinv'' & Hrate' & Hws').
  change (Page.capture_run (e :: es) st)
    with (Page.capture_run es (Page.port_onmessage e st)).
  split; [exact Hinv''|]. split; [by rewrite Hrate' | auto].
Qed.

Lemma appended_app (prev : option (list T)) (down : list T) :
  Page.appended prev down = default [] prev ++ down.
Proof. by destruct prev as [[|x prev]|]. Qed.

Lemma port_onmessage_connecting (e : Page.worklet_data T) (st : Page.capture T)
    (sent : list Page.upload) :
  Page.wsRef st = Some sent →
  Page.ws_readyState st = CONNECTING →
  Page.wsRef (Page.port_onmessage e st) = Some sent
  ∧ default [] (Page.pendingSamplesRef (Page.port_onmessage e st))
    = default [] (Page.pendingSamplesRef st)
      ++ Page.resampled (Page.sampleRateRef st) e.
Proof.
  intros Hws Hready. unfold Page.port_onmessage, Page.ws_send, Page.resampled.
  destruct e as [f32|]; [|by rewrite app_nil_r].
  destruct (Page.downsampleTo24kHz f32 _) as [down|]; [|by rewrite app_nil_r].
  rewrite Hws, Hready. cbn [default].
  by destruct (_ <=? _)%nat; cbn [Page.wsRef Page.pendingSamplesRef default];
    rewrite appended_app.
Qed.

(** X29.  While the socket of the capture is connecting, the call of
    [send] throws before the pending buffer is cleared: nothing is sent,
    and the buffer holds every chunk resampled since the capture began,
    with no bound on its length. *)
Theorem accumulator_grows_while_connecting
    (es : list (Page.worklet_data T)) (st : Page.capture T)
    (sent : list Page.upload) :
  Page.wsRef st = Some sent →
  Page.ws_readyState st = CONNECTING →
  Page.wsRef (Page.capture_run es st) = Some sent
  ∧ default [] (Page.pendingSamplesRef (Page.capture_run es st))
    = default [] (Page.pendingSamplesRef st)
      ++ concat (map (Page.resampled (Page.sampleRateRef st)) es).
Proof.
  revert st. induction es as [|e es IH]; intros st Hws Hready.
  { by rewrite app_nil_r. }
  destruct (port_onmessage_connecting e st sent Hws Hready) as (Hws1 & Hbuf1).
  destruct (port_onmessage_refs e st) as (Hrate1 & Hready1 & _).
  rewrite <- Hready1 in Hready.
  destruct (IH _ Hws1 Hready) as (Hws2 & Hbuf2).
  change (Page.capture_run (e :: es) st)
    with (Page.capture_run es (Page.port_onmessage e st)).
  split; [exact Hws2|].
  rewrite Hbuf2, Hbuf1, Hrate1. cbn [map concat]. by rewrite app_assoc.
Qed.

Lemma port_onmessage_uploads (e : Page.worklet_data T) (st : Page.capture T)
    (sent : list Page.upload) :
  Page.wsRef st = Some sent →
  ∃ new, Page.wsRef (Page.port_onmessage e st) = Some (sent ++ new)
         ∧ (length new ≤ 1)%nat
         ∧ Forall (Page.frame_of_event (Page.sampleRateRef st) [e]) new.
Proof.
  intros Hws.
  assert (Hnone : ∃ new, Page.wsRef st = Some (sent ++ new)
                         ∧ (length new ≤ 1)%nat
                         ∧ Forall (Page.frame_of_event (Page.sampleRateRef st) [e]) new).
  { exists []. rewrite app_nil_r. split; [exact Hws|].
    split; [simpl; lia | constructor]. }
  unfold Page.port_onmessage, Page.ws_send. destruct e as [f32|]; [|exact Hnone].
  destruct (Page.downsampleTo24kHz f32 _) as [down|] eqn:Hdown; [|exact Hnone].
  destruct (_ <=? _)%nat; [|exact Hnone].
  rewrite Hws in *.
  destruct (Page.ws_readyState st); cbn [Page.wsRef]; try exact Hnone.
  eexists [_]. split; [reflexivity|].
  split; [simpl; lia|]. apply Forall_singleton.
  exists f32, down. split; [apply list_elem_of_singleton; reflexivity|].
  by split.
Qed.

Lemma frame_of_event_mono (rate : Z) (es es' : list (Page.worklet_data T))
    (u : Page.upload) :
  es ⊆ es' → Page.frame_of_event rate es u → Page.frame_of_event rate es' u.
Proof.
  intros Hsub (f32 & down & Hin & Hdown & ->).
  exists f32, down. split; [by apply Hsub | by split].
Qed.

(** X9.  Over a capture the page sends at most one frame per worklet
    message, adds them after what was sent before, and every frame it
    sends is the encoding of the resampled chunk of a single message of
    the capture. *)
Theorem accumulator_frames_are_single_chunks
    (es : list (Page.worklet_data T)) (st : Page.capture T)
    (sent : list Page.upload) :
  Page.pending_below_threshold st →
  Page.wsRef st = Some sent →
  ∃ new, Page.wsRef (Page.capture_run es st) = Some (sent ++ new)
         ∧ (length new ≤ length es)%nat
         ∧ Forall (Page.frame_of_event (Page.sampleRateRef st) es) new.
Proof.
  intros _. revert st sent. induction es as [|e es IH]; intros st sent Hws.
  { exists []. rewrite app_nil_r. split; [exact Hws|].
    split; [simpl; lia | constructor]. }
  destruct (port_onmessage_uploads e st sent Hws) as (new1 & Hws1 & Hlen1 & Hall1).
  destruct (port_onmessage_refs e st) as (Hrate1 & _).
  destruct (IH _ _ Hws1) as (new2 & Hws2 & Hlen2 & Hall2).
  exists (new1 ++ new2).
  change (Page.capture_run (e :: es) st)
    with (Page.capture_run es (Page.port_onmessage e st)).
  rewrite Hws2, app_assoc. split; [reflexivity|].
  split; [rewrite length_app; simpl; lia|].
  apply Forall_app. split.
  - eapply Forall_impl; [exact Hall1|]. intros u.
    apply frame_of_event_mono. intros x Hx.
    apply list_elem_of_singleton in Hx. subst x. constructor.
  - rewrite Hrate1 in Hall2. eapply Forall_impl; [exact Hall2|]. intros u.
    apply frame_of_event_mono. intros x Hx. by constructor.
Qed.

End AccumulatorFacts.

Lemma accumulator_stays_below_threshold_witness :
  Page.pending_below_threshold
    (Page.capture_run [Page.loud_block; Page.quiet_block] Page.capture_start).
Proof.
  assert (Hsend : Page.send_returns Page.capture_start)
    by (right; discriminate).
  destruct (accumulator_stays_below_threshold
              [Page.loud_block; Page.quiet_block] Page.capture_start I Hsend)
    as (Hbelow & _).
  exact Hbelow.
Defined.

Lemma accumulator_grows_while_connecting_witness :
  Page.wsRef
    (Page.capture_run (replicate 38 Page.loud_block)
       Page.capture_start_connecting)
  = Some [].
Proof.
  destruct (accumulator_grows_while_connecting
              (replicate 38 Page.loud_block) Page.capture_start_connecting []
              eq_refl eq_refl)
    as (Hsent & _).
  exact Hsent.
Defined.

Lemma accumulator_frames_are_single_chunks_witness :
  ∃ new,
    Page.wsRef (Page.capture_run (replicate 38 Page.loud_block) Page.capture_start)
    = Some ([] ++ new)
    ∧ (length new ≤ length (replicate 38 Page.loud_block))%nat
    ∧ Forall (Page.frame_of_event (Page.sampleRateRef Page.capture_start)
                (replicate 38 Page.loud_block)) new.
Proof.
  exact (accumulator_frames_are_single_chunks
           (replicate 38 Page.loud_block) Page.capture_start [] I eq_refl).
Defined.

(** The capture of C3 begun before the socket has opened: the
    thirty-eighth block takes the pending buffer over the threshold, to
    2432 samples, and it stays there. *)
Example pending_buffer_over_threshold_while_connecting :
  length
    <$> Page.pendingSamplesRef
          (Page.capture_run (replicate 38 Page.loud_block)
             Page.capture_start_connecting)
  = Some 2432%nat.
Proof. vm_compute. reflexivity. Qed.

(** ** The browser side of the relay *)

(** Shows an effect of the handler from the effect's own form of the
    resulting scope. *)
Ltac by_effect effect :=
  eapply eq_ind; [effect|];
  cbn [fst snd approxB64SinceCommit activeResponse language openai_readyState
       openai_sent client_sent openai_closed client_closed];
  run_branch; tidy_log; reflexivity.

Section ClientEffects.
Context {number : Type} `{Runtime number}.

(** The last two tests of the body. *)
Lemma flush_and_ping_cases (type : value number) (msg : value number)
    (s : scope number) :
  client_effect s
    ((when (equals type "client.flush") flush_branch >>
      when (equals type "ping") (ping_branch msg)) s).2.
Proof.
  destruct s as [[approx active] [lang ready sent csent oclosed cclosed]].
  destruct (equals type "client.flush").
  - run_branch.
    destruct (Z.ltb_spec approx 6400) as [Hlt|Hge]; [apply effect_none|].
    destruct ready; try apply effect_none;
      destruct active;
      first [ by_effect ltac:(by apply effect_flush_busy)
            | by_effect ltac:(by apply effect_flush_idle) ].
  - destruct (equals type "ping"); [|apply effect_none].
    by_effect ltac:(apply effect_pong).
Qed.

(** Every path through the handler has one of the effects. *)
Lemma client_on_message_cases (raw : jsstring) (s : scope number) :
  client_effect s (client_on_message raw s).
Proof.
  unfold client_on_message, client_message.
  destruct (JSON_parse raw) as [msg|]; [|constructor].
  destruct (get msg "type") as [type|]; [|constructor].
  destruct (equals type "config" && truthy (prop msg "language")) eqn:Hconfig.
  { apply andb_true_iff in Hconfig as [_ Hlang].
    destruct s as [g [lang ready sent csent oclosed cclosed]].
    destruct ready; by_effect ltac:(by apply effect_config). }
  pose proof (flush_and_ping_cases type msg s) as Hrest.
  destruct (prop msg "audio") as [| | | | audio | |]; try exact Hrest.
  destruct (equals type "client.audio.append"); [|exact Hrest].
  destruct s as [[approx active] [lang ready sent csent oclosed cclosed]].
  destruct ready; by_effect ltac:(apply effect_append).
Qed.

(** X10.  Whatever text the browser sends and whatever the state of the
    provider socket, the handler does one of six things: nothing; set
    the language and hand one session update to the provider socket;
    add the audio's length to the estimate and hand the audio to the
    provider socket; hand it a commit and a request-create, set the
    flag and zero the estimate; hand it a commit alone; answer a pong.
    The provider socket takes what it is handed when it is open, and a
    flush at or above the threshold does nothing at all while it is
    connecting.  In particular the handler never closes a socket, never
    sends the browser anything but a pong, and never clears the flag. *)
Theorem client_on_message_effect (raw : jsstring) (s : scope number) :
  client_effect s (client_on_message raw s)
  ∧ openai_readyState (client_on_message raw s).2 = openai_readyState s.2
  ∧ openai_closed (client_on_message raw s).2 = openai_closed s.2
  ∧ client_closed (client_on_message raw s).2 = client_closed s.2
  ∧ (activeResponse s.1 = true →
     activeResponse (client_on_message raw s).1 = true)
  ∧ (client_sent (client_on_message raw s).2 = client_sent s.2
     ∨ ∃ t, client_sent (client_on_message raw s).2
            = client_sent s.2 ++ [Pong t]).
Proof.
  pose proof (client_on_message_cases raw s) as Heffect.
  split; [exact Heffect|].
  destruct Heffect as [| lang _ | audio | _ Hidle _ | _ Hbusy _ | t];
    cbn [fst snd activeResponse openai_readyState openai_closed client_closed
         client_sent]; eauto 10.
Qed.

(** X11.  A [client.audio.append] message whose [audio] is a string adds
    the string's length to the estimate, whatever the state of the
    provider socket, and hands the string to that socket, which takes
    it when it is open: audio that arrives while the socket is
    connecting, or after it has closed, is counted and not forwarded.
    The flag, the language and the browser socket are left as they
    were. *)
Theorem audio_append_counts_and_forwards
    (raw : jsstring) (msg : value number) (audio : jsstring) (s : scope number) :
  JSON_parse raw = Some msg →
  equals (prop msg "type") "client.audio.append" = true →
  prop msg "audio" = VStr audio →
  client_on_message raw s
  = ({| approxB64SinceCommit :=
          approxB64SinceCommit s.1 + Z.of_nat (length audio);
        activeResponse := activeResponse s.1 |},
     {| language := language s.2;
        openai_readyState := openai_readyState s.2;
        openai_sent := openai_sent s.2
                       ++ taken (openai_readyState s.2) [AudioAppend audio];
        client_sent := client_sent s.2;
        openai_closed := openai_closed s.2;
        client_closed := client_closed s.2 |}).
Proof.
  intros Hparse Htype Haudio. run_message msg Htype. rewrite Haudio.
  destruct s as [[approx active] [lang ready sent csent oclosed cclosed]].
  by destruct ready; run_branch; tidy_log.
Qed.

(** X12.  A [ping] message is answered by one [pong] carrying the [t] of
    the ping, whatever it is, and changes nothing else. *)
Theorem ping_is_echoed (raw : jsstring) (msg : value number) (s : scope number) :
  JSON_parse raw = Some msg →
  equals (prop msg "type") "ping" = true →
  client_on_message raw s
  = (s.1,
     {| language := language s.2;
        openai_readyState := openai_readyState s.2;
        openai_sent := openai_sent s.2;
        client_sent := client_sent s.2 ++ [Pong (prop msg "t")];
        openai_closed := openai_closed s.2;
        client_closed := client_closed s.2 |}).
Proof.
  intros Hparse Htype. run_message msg Htype.
  by destruct (prop msg "audio").
Qed.

(** X13.  The messages the handler ignores: a text that is not JSON; the
    JSON value [null]; a message whose [type] is none of the four tags;
    a [config] whose [language] is missing or falsy; an audio message
    whose [audio] is not a string.  Each leaves the scope as it was. *)
Theorem ignored_browser_messages (raw : jsstring) (s : scope number) :
  (JSON_parse raw = None → client_on_message raw s = s)
  ∧ (JSON_parse raw = Some VNull → client_on_message raw s = s)
  ∧ (∀ msg, JSON_parse raw = Some msg →
       Forall (λ tag, equals (prop msg "type") tag = false)
         known_message_types →
       client_on_message raw s = s)
  ∧ (∀ msg, JSON_parse raw = Some msg →
       equals (prop msg "type") "config" = true →
       truthy (prop msg "language") = false →
       client_on_message raw s = s)
  ∧ (∀ msg, JSON_parse raw = Some msg →
       equals (prop msg "type") "client.audio.append" = true →
       (∀ audio, prop msg "audio" ≠ VStr audio) →
       client_on_message raw s = s).
Proof.
  split; [|split; [|split; [|split]]].
  - unfold client_on_message. by intros ->.
  - unfold client_on_message. by intros ->.
  - intros msg Hparse Hnone. unfold client_on_message, client_message.
    rewrite Hparse.
    destruct (get msg "type") as [type|] eqn:Hget; [|reflexivity].
    assert (type = prop msg "type") as ->
      by (destruct msg; unfold get in Hget; congruence).
    unfold known_message_types in Hnone.
    repeat match goal with
           | Hall : Forall _ (_ :: _) |- _ =>
               apply Forall_cons in Hall as [? Hall]
           end.
    repeat match goal with
           | Heq : equals _ _ = false |- _ => rewrite Heq; clear Heq
           end.
    by destruct (prop msg "audio").
  - intros msg Hparse Htype Hlang. run_message msg Htype. rewrite Hlang.
    by destruct (prop msg "audio").
  - intros msg Hparse Htype Haudio. run_message msg Htype.
    destruct (prop msg "audio") as [| | | | audio | |] eqn:Ha;
      try reflexivity.
    by destruct (Haudio audio).
Qed.

(** X30.  A flush at or above the threshold when the provider socket is
    not open.  While the socket is connecting, the [send] of the commit
    throws and the flush changes nothing: the estimate is kept and the
    flag stays as it was.  Once the socket is closing or closed, [send]
    returns without sending: the provider gets nothing, and yet the flag
    is set and the estimate zeroed if no response was running. *)
Theorem flush_without_open_provider
    (raw : jsstring) (msg : value number) (s : scope number) :
  JSON_parse raw = Some msg →
  equals (prop msg "type") "client.flush" = true →
  6400 ≤ approxB64SinceCommit s.1 →
  (openai_readyState s.2 = CONNECTING → client_on_message raw s = s)
  ∧ (openai_readyState s.2 = CLOSING ∨ openai_readyState s.2 = CLOSED →
     client_on_message raw s
     = ({| approxB64SinceCommit :=
             if activeResponse s.1 then approxB64SinceCommit s.1 else 0;
           activeResponse := true |}, s.2)).
Proof.
  intros Hparse Htype Hge. run_message msg Htype.
  destruct s as [[approx active] [lang ready sent csent oclosed cclosed]].
  cbn [fst snd approxB64SinceCommit activeResponse openai_readyState] in *.
  apply Z.ltb_ge in Hge.
  split.
  - intros ->.
    destruct (prop msg "audio"); run_branch; rewrite Hge; reflexivity.
  - intros [-> | ->]; destruct active;
      destruct (prop msg "audio"); run_branch; rewrite Hge; reflexivity.
Qed.

End ClientEffects.

Lemma audio_append_counts_and_forwards_witness :
  client_on_message (H := sample_host) (object_text (append_of_length 6400))
    (fresh_scope 100 false)
  = ({| approxB64SinceCommit := 6500; activeResponse := false |},
     {| language := VStr (js "en");
        openai_readyState := OPEN;
        openai_sent := [AudioAppend (replicate 6400 65%N)];
        client_sent := [];
        openai_closed := false;
        client_closed := false |}).
Proof.
  rewrite (audio_append_counts_and_forwards (H := sample_host)
             (object_text (append_of_length 6400))
             (object_value (append_of_length 6400))
             (replicate 6400 65%N) (fresh_scope 100 false)).
  - vm_compute. reflexivity.
  - vm_compute. reflexivity.
  - vm_compute. reflexivity.
  - vm_compute. reflexivity.
Defined.

Lemma ping_is_echoed_witness :
  client_on_message (H := host_of [[("type", "ping"); ("t", "17")]%string])
    (object_text [("type", "ping"); ("t", "17")]%string) (fresh_scope 0 true)
  = ({| approxB64SinceCommit := 0; activeResponse := true |},
     {| language := VStr (js "en");
        openai_readyState := OPEN;
        openai_sent := [];
        client_sent := [Pong (VStr (js "17"))];
        openai_closed := false;
        client_closed := false |}).
Proof.
  apply (ping_is_echoed (H := host_of [[("type", "ping"); ("t", "17")]%string])
           (object_text [("type", "ping"); ("t", "17")]%string)
           (object_value [("type", "ping"); ("t", "17")]%string)
           (fresh_scope 0 true)).
  - vm_compute. reflexivity.
  - vm_compute. reflexivity.
Defined.

Lemma ignored_browser_messages_witness :
  client_on_message (H := sample_host) (js "not json") (fresh_scope 7000 false)
  = fresh_scope 7000 false
  ∧ client_on_message (H := sample_host) (object_text text_delta_hel)
      (fresh_scope 7000 false)
    = fresh_scope 7000 false.
Proof.
  destruct (ignored_browser_messages (H := sample_host) (js "not json")
              (fresh_scope 7000 false)) as (Hbad & _).
  destruct (ignored_browser_messages (H := sample_host)
              (object_text text_delta_hel) (fresh_scope 7000 false))
    as (_ & _ & Hother & _).
  split.
  - apply Hbad. vm_compute. reflexivity.
  - apply (Hother (object_value text_delta_hel)).
    + vm_compute. reflexivity.
    + repeat constructor.
Defined.

Lemma flush_without_open_provider_witness :
  client_on_message (H := sample_host) (object_text flush)
    (connecting_scope 6400 false)
  = connecting_scope 6400 false.
Proof.
  destruct (flush_without_open_provider (H := sample_host) (object_text flush)
              (object_value flush) (connecting_scope 6400 false))
    as (Hconnecting & _).
  - vm_compute. reflexivity.
  - vm_compute. reflexivity.
  - simpl. lia.
  - apply Hconnecting. reflexivity.
Defined.

(** ** At most one request in flight *)

Section InFlight.
Context {number : Type} `{Runtime number}.

Lemma creates_app (l l' : list (upstream number)) :
  creates (l ++ l') = (creates l + creates l')%nat.
Proof.
  induction l as [|m l IH]; [reflexivity|].
  destruct m; cbn [app creates]; rewrite IH; reflexivity.
Qed.

Lemma client_effect_creates (s s' : scope number) :
  client_effect s s' →
  ∃ new, openai_sent s'.2 = openai_sent s.2 ++ new
         ∧ (creates new ≤ 1)%nat
         ∧ (activeResponse s.1 = true →
            creates new = 0%nat ∧ activeResponse s'.1 = true)
         ∧ (creates new = 1%nat → activeResponse s'.1 = true).
Proof.
  intros [| lang _ | audio | _ Hidle _ | _ Hbusy _ | t];
    cbn [fst snd openai_sent activeResponse];
    first [ exists []; rewrite app_nil_r; split; [reflexivity|]
          | eexists; split; [reflexivity|] ];
    destruct (openai_readyState s.2); cbn [taken creates];
    repeat split; auto; try lia; congruence.
Qed.

(** X14.  Over any sequence of browser messages handled with no provider
    event in between, at most one [response.create] is sent upstream,
    and none at all if a response was already running when the
    sequence started; once the flag is set, no browser message clears
    it. *)
Theorem at_most_one_request_between_completions
    (raws : list jsstring) (s : scope number) :
  ∃ new, openai_sent (client_run raws s).2 = openai_sent s.2 ++ new
         ∧ (creates new ≤ 1)%nat
         ∧ (activeResponse s.1 = true →
            creates new = 0%nat ∧ activeResponse (client_run raws s).1 = true)
         ∧ (creates new = 1%nat → activeResponse (client_run raws s).1 = true).
Proof.
  revert s. induction raws as [|raw raws IH]; intros s.
  { exists []. rewrite app_nil_r. repeat split; auto; simpl; lia. }
  change (client_run (raw :: raws) s)
    with (client_run raws (client_on_message raw s)).
  destruct (client_effect_creates s _ (client_on_message_cases raw s))
    as (new1 & Hlog1 & Hle1 & Hbusy1 & Hone1).
  destruct (IH (client_on_message raw s)) as (new2 & Hlog2 & Hle2 & Hbusy2 & Hone2).
  exists (new1 ++ new2). rewrite Hlog2, Hlog1, app_assoc, creates_app.
  split; [reflexivity|].
  assert (Hcase : creates new1 = 0%nat ∨ creates new1 = 1%nat) by lia.
  destruct Hcase as [Hzero | Hfirst].
  - rewrite Hzero. split; [simpl; lia|]. split.
    + intros Hactive. destruct (Hbusy1 Hactive) as [_ Hactive'].
      destruct (Hbusy2 Hactive') as [Hnone Hstill]. by rewrite Hnone.
    + simpl. exact Hone2.
  - destruct (Hbusy2 (Hone1 Hfirst)) as [Hnone Hstill].
    rewrite Hfirst, Hnone. split; [simpl; lia|]. split.
    + intros Hactive. destruct (Hbusy1 Hactive) as [Hcontra _]. lia.
    + intros _. exact Hstill.
Qed.

End InFlight.

(** ** Invariants of the server *)

Section ServerInvariants.
Context {number : Type} `{Runtime number}.

Lemma in_connection_inv (G : globals → Prop) (C : conn number → Prop)
    (id : nat) (h : scope number → scope number) (srv : server number) :
  handler_keeps G C h →
  server_inv G C srv → server_inv G C (in_connection id h srv).
Proof.
  intros Hh [HG HC]. unfold in_connection.
  destruct (connections srv !! id) as [c|] eqn:Hc; [|by split].
  destruct (Hh (shared srv, c) HG (HC id c Hc)) as [HG' HC'].
  split; [exact HG'|]. cbn [connections]. intros id' c' Hc'.
  destruct (decide (id = id')) as [<-|Hne].
  - rewrite lookup_insert_eq in Hc'. by injection Hc' as <-.
  - rewrite lookup_insert_ne in Hc' by done. by apply (HC id').
Qed.

(** An invariant that the callbacks keep, and that holds of a new
    connection, holds after every event. *)
Lemma run_inv (G : globals → Prop) (C : conn number → Prop) :
  C new_conn →
  (∀ raw, handler_keeps G C (client_on_message raw)) →
  (∀ data, handler_keeps G C (openai_on_message data)) →
  handler_keeps G C openai_opens →
  handler_keeps G C openai_fails →
  handler_keeps G C openai_closes →
  handler_keeps G C closeAll →
  ∀ (es : list event) (srv : server number),
    server_inv G C srv → server_inv G C (run es srv).
Proof.
  intros Hnew Hclient Hprovider Hopen Herror Hclosed Hclose es.
  induction es as [|e es IH]; intros srv Hinv; [exact Hinv|].
  change (run (e :: es) srv) with (run es (dispatch srv e)).
  apply IH. destruct e; cbn [dispatch]; try by apply in_connection_inv.
  destruct Hinv as [HG HC]. split; [exact HG|]. cbn [connections].
  intros id' c' Hc'. destruct (decide (id = id')) as [<-|Hne].
  - rewrite lookup_insert_eq in Hc'. by injection Hc' as <-.
  - rewrite lookup_insert_ne in Hc' by done. by apply (HC id').
Qed.

Lemma boot_inv (G : globals → Prop) (C : conn number → Prop) :
  G {| approxB64SinceCommit := 0; activeResponse := false |} →
  server_inv G C boot.
Proof.
  intros HG. split; [exact HG|]. cbn [boot connections]. intros id c Hc.
  by rewrite lookup_empty in Hc.
Qed.

(** The provider handler changes none of the fields [frame] names. *)
Lemma openai_on_message_frame (data : jsstring) (s : scope number) :
  frame s (openai_on_message data s).
Proof. unfold openai_on_message. apply keeps_openai_lines. Qed.

(** The opening of the provider socket sends the session update for the
    language the connection has at that moment. *)
Lemma openai_opens_effect (s : scope number) :
  openai_opens s
  = (s.1,
     {| language := language s.2;
        openai_readyState := OPEN;
        openai_sent := openai_sent s.2 ++ [SessionUpdate (language s.2)];
        client_sent := client_sent s.2;
        openai_closed := openai_closed s.2;
        client_closed := client_closed s.2 |}).
Proof. reflexivity. Qed.

(** X15.  From the start of the process, after any sequence of events on
    any number of connections, the estimate is never negative. *)
Theorem estimate_never_negative (es : list event) :
  0 ≤ approxB64SinceCommit (shared (run es boot)).
Proof.
  cut (server_inv (λ g, 0 ≤ approxB64SinceCommit g) (λ _ : conn number, True)
         (run es boot)); [by intros [Hpos _]|].
  apply run_inv.
  - done.
  - intros raw s Hpos _. split; [|done].
    destruct (client_on_message_cases raw s); cbn [fst approxB64SinceCommit];
      lia.
  - intros data s Hpos _. split; [|done].
    destruct (openai_on_message_frame data s) as (Hsame & _). by rewrite Hsame.
  - intros s Hpos _. by rewrite openai_opens_effect.
  - by intros s Hpos _.
  - by intros s Hpos _.
  - by intros s Hpos _.
  - by apply boot_inv.
Qed.

Lemma commit_before_create_app (log new : list (upstream number)) :
  commit_before_create log → commit_before_create new →
  commit_before_create (log ++ new).
Proof.
  intros Hlog Hnew i Hi. apply lookup_app_Some in Hi as [Hi | [Hge Hi]].
  - destruct (Hlog i Hi) as (j & -> & Hj). exists j. split; [done|].
    by apply lookup_app_l_Some.
  - destruct (Hnew _ Hi) as (j & Hij & Hj).
    exists (length log + j)%nat. split; [lia|].
    by rewrite lookup_app_r, Nat.add_comm, Nat.add_sub by lia.
Qed.

Lemma commit_before_create_short (new : list (upstream number)) :
  (new = [] ∨ (∃ lang, new = [SessionUpdate lang])
   ∨ (∃ audio, new = [AudioAppend audio]) ∨ new = [AudioCommit]
   ∨ new = [AudioCommit; ResponseCreate]) →
  commit_before_create new.
Proof.
  intros [-> | [[lang ->] | [[audio ->] | [-> | ->]]]] i Hi;
    destruct i as [|[|[|i]]]; simpl in Hi; try discriminate.
  by exists 0%nat.
Qed.

(** X16.  From the start of the process, after any sequence of events,
    on every connection each [response.create] handed to the provider
    comes immediately after an [input_audio_buffer.commit]: a request is
    never created without the commit that goes with it. *)
Theorem create_always_follows_commit
    (es : list event) (id : nat) (c : conn number) :
  connections (run es boot) !! id = Some c →
  commit_before_create (openai_sent c).
Proof.
  cut (server_inv (λ _, True)
         (λ c : conn number, commit_before_create (openai_sent c))
         (run es boot)); [intros [_ Hlogs]; apply Hlogs|].
  apply run_inv.
  - apply commit_before_create_short. by left.
  - intros raw s _ Hlog. split; [done|].
    destruct (client_on_message_cases raw s); cbn [snd openai_sent];
      try exact Hlog;
      apply commit_before_create_app; try exact Hlog;
      apply commit_before_create_short;
      destruct (openai_readyState s.2); cbn [taken]; eauto 10.
  - intros data s _ Hlog. split; [done|].
    destruct (openai_on_message_frame data s) as (_ & _ & Hsame & _).
    by rewrite Hsame.
  - intros s _ Hlog. split; [done|].
    rewrite openai_opens_effect. cbn [snd openai_sent].
    apply commit_before_create_app; [exact Hlog|].
    apply commit_before_create_short. eauto.
  - by intros s _ Hlog.
  - by intros s _ Hlog.
  - by intros s _ Hlog.
  - by apply boot_inv.
Qed.

End ServerInvariants.

Lemma at_most_one_request_between_completions_witness :
  ∃ new : list (upstream Z),
    openai_sent
      (client_run (H := sample_host)
         [object_text (append_of_length 6400); object_text flush;
          object_text (append_of_length 6400); object_text flush]
         (fresh_scope 0 false)).2
    = [] ++ new
    ∧ (creates new ≤ 1)%nat.
Proof.
  destruct (at_most_one_request_between_completions (H := sample_host)
              [object_text (append_of_length 6400); object_text flush;
               object_text (append_of_length 6400); object_text flush]
              (fresh_scope 0 false)) as (new & Hlog & Hle & _).
  exists new. split; [exact Hlog | exact Hle].
Defined.

Lemma create_always_follows_commit_witness :
  commit_before_create (number := Z)
    [SessionUpdate (VStr (js "en")); AudioAppend (replicate 6400 65%N);
     AudioCommit; ResponseCreate].
Proof.
  apply (create_always_follows_commit (H := sample_host)
           [Connection 1; OpenaiOpen 1;
            ClientMessage 1 (object_text (append_of_length 6400));
            ClientMessage 1 (object_text flush)]
           1%nat
           {| language := VStr (js "en");
              openai_readyState := OPEN;
              openai_sent := [SessionUpdate (VStr (js "en"));
                              AudioAppend (replicate 6400 65%N); AudioCommit;
                              ResponseCreate];
              client_sent := [];
              openai_closed := false;
              client_closed := false |}).
  vm_compute. reflexivity.
Defined.

(** ** The provider side of the relay *)

Section Emits.
Context {number : Type} `{Runtime number}.

Lemma emits_nothing (a : step number) :
  (∀ s, client_sent (a s).2.2 = client_sent s.2) → emits a.
Proof.
  intros Hsame s. exists []. rewrite app_nil_r. split; [apply Hsame | constructor].
Qed.

Lemma emits_skip : emits (number := number) skip.
Proof. by apply emits_nothing. Qed.

Lemma emits_return : emits (number := number) return_.
Proof. by apply emits_nothing. Qed.

Lemma emits_throw : emits (number := number) throw.
Proof. by apply emits_nothing. Qed.

Lemma emits_set_activeResponse (b : bool) :
  emits (number := number) (exec (set_activeResponse b)).
Proof. by apply emits_nothing. Qed.

Lemma emits_then (a b : step number) : emits a → emits b → emits (a >> b).
Proof.
  intros Ha Hb s. unfold then_. destruct (Ha s) as (new1 & Hs1 & Hok1).
  destruct (a s) as [[] s1]; try by exists new1.
  destruct (Hb s1) as (new2 & Hs2 & Hok2). exists (new1 ++ new2).
  cbn [snd] in *. rewrite Hs2, Hs1, app_assoc. split; [reflexivity|].
  by apply Forall_app.
Qed.

Lemma emits_when (c : bool) (a : step number) : emits a → emits (when c a).
Proof. destruct c; [done | intros _; apply emits_skip]. Qed.

Lemma emits_with_String (v : value number) (k : jsstring → step number) :
  (∀ t, emits (k t)) → emits (with_String v k).
Proof.
  intros Hk. unfold with_String. destruct (ToString v); [apply Hk | apply emits_throw].
Qed.

Lemma emits_forward_interim (t : jsstring) :
  emits (number := number) (forward interim t t).
Proof.
  unfold forward, when. destruct (str_eqb t []) eqn:Ht; cbn [negb];
    [apply emits_skip|].
  intros s. exists [Transcript interim t]. split; [reflexivity|].
  apply Forall_singleton. cbn. intros ->. discriminate.
Qed.

Lemma emits_forward_final (t u : jsstring) :
  emits (number := number) (forward final t (trim u)).
Proof.
  unfold forward. apply emits_when. intros s.
  exists [Transcript final (trim u)]. split; [reflexivity|].
  apply Forall_singleton. apply trim_idem.
Qed.

End Emits.

Create HintDb emits.

#[local] Hint Resolve emits_skip emits_return emits_throw
  emits_set_activeResponse emits_then emits_when emits_with_String
  emits_forward_interim emits_forward_final : emits.

Ltac emits_cases :=
  repeat first
    [ progress auto with emits
    | apply emits_then
    | apply emits_when
    | apply emits_with_String; intros ?
    | match goal with
      | |- emits (if ?c then _ else _) => destruct c
      | |- emits (match ?x with _ => _ end) => destruct x
      | |- emits (let _ := _ in _) => cbv zeta
      end ].

Section ProviderOutput.
Context {number : Type} `{Runtime number}.

Lemma emits_openai_event (m : value number) : emits (openai_event m).
Proof. unfold openai_event. emits_cases. Qed.

Lemma emits_openai_lines (lines : list jsstring) : emits (openai_lines lines).
Proof.
  induction lines as [|l lines IH]; cbn [openai_lines]; emits_cases.
  apply emits_openai_event.
Qed.

(** X17.  Whatever the provider sends, what the relay sends the browser
    in return are transcripts only, added after what was sent before:
    every interim text is non-empty and every final text is free of
    surrounding white space. *)
Theorem provider_output_is_transcripts (data : jsstring) (s : scope number) :
  ∃ new, client_sent (openai_on_message data s).2 = client_sent s.2 ++ new
         ∧ Forall forwarded_ok new.
Proof. unfold openai_on_message. apply emits_openai_lines. Qed.

(** X18.  Whatever the provider sends, the handler sends nothing
    upstream, leaves the estimate and the language as they were, closes
    no socket and leaves the provider socket in its state: of the
    relay's state it can only change the flag. *)
Theorem provider_messages_change_only_the_flag
    (data : jsstring) (s : scope number) :
  approxB64SinceCommit (openai_on_message data s).1 = approxB64SinceCommit s.1
  ∧ language (openai_on_message data s).2 = language s.2
  ∧ openai_sent (openai_on_message data s).2 = openai_sent s.2
  ∧ openai_closed (openai_on_message data s).2 = openai_closed s.2
  ∧ client_closed (openai_on_message data s).2 = client_closed s.2
  ∧ openai_readyState (openai_on_message data s).2 = openai_readyState s.2.
Proof. apply openai_on_message_frame. Qed.

End ProviderOutput.

Section ProviderEvents.
Context {number : Type} `{Runtime number}.

(** X19.  An event that is not [null] and whose [type] is missing, not a
    string, or none of the fourteen tags the handler knows is ignored:
    nothing is sent, nothing changes, and the loop goes on to the next
    line. *)
Theorem unknown_events_are_ignored (m : value number) (s : scope number) :
  m ≠ VNull → m ≠ VUndefined →
  Forall (λ tag, equals (prop m "type") tag = false) known_event_types →
  openai_event m s = (Normal, s).
Proof.
  intros Hnull Hundef Hnone. unfold openai_event.
  assert (Hget : get m "type" = Some (prop m "type")) by (by destruct m).
  rewrite Hget. unfold known_event_types in Hnone.
  repeat match goal with
         | Hall : Forall _ (_ :: _) |- _ =>
             apply Forall_cons in Hall as [? Hall]
         end.
  repeat match goal with
         | Heq : equals _ _ = false |- _ => rewrite !Heq; clear Heq
         end.
  reflexivity.
Qed.

(** X20.  [response.created] sets the flag and [response.done] clears
    it; neither sends anything nor changes anything else, and the loop
    goes on to the next line. *)
Theorem lifecycle_events_set_and_clear_the_flag
    (m : value number) (s : scope number) :
  (equals (prop m "type") "response.created" = true →
   openai_event m s
   = (Normal, ({| approxB64SinceCommit := approxB64SinceCommit s.1;
                  activeResponse := true |}, s.2)))
  ∧ (equals (prop m "type") "response.done" = true →
     openai_event m s
     = (Normal, ({| approxB64SinceCommit := approxB64SinceCommit s.1;
                    activeResponse := false |}, s.2))).
Proof.
  split; intros Htype; run_event m Htype; reflexivity.
Qed.

(** X24.  Blank texts.  A delta or done event whose text is empty
    forwards nothing.  A done event other than [content_part.done] whose
    text is only white space forwards nothing either; but a
    [content_part.done] whose text is only white space, and not empty,
    forwards a final transcript with the empty text, because it tests
    the text before trimming it. *)
Theorem blank_texts (m : value number) (t : jsstring) (s : scope number) :
  (delta_event m [] → openai_event m s = (Normal, s))
  ∧ (done_event m [] → (openai_event m s).2 = s)
  ∧ (done_event m t → trim t = [] →
     equals (prop m "type") "response.content_part.done" = false →
     openai_event m s = (Normal, s))
  ∧ (done_event m t → trim t = [] → t ≠ [] →
     equals (prop m "type") "response.content_part.done" = true →
     openai_event m s = (Return, client_send (Transcript final []) s)).
Proof.
  split; [|split; [|split]].
  - intros [Htype Htext | Htype Htext | Htype Htext | Htype Htext
           | Htype Hdtype Htext];
      run_event m Htype; rewrite ?Hdtype; eval_equals; rewrite Htext;
      reflexivity.
  - intros [Htype Htext | Htype Htext | Htype Htext | Htype Htext];
      run_event m Htype; rewrite Htext; reflexivity.
  - intros Hshape Htrim Hother.
    destruct Hshape as [Htype Htext | Htype Htext | Htype Htext | Htype Htext];
      [congruence | ..];
      run_event m Htype; rewrite Htext; run_steps;
      destruct (str_eqb t []); run_steps; rewrite ?Htrim; reflexivity.
  - intros Hshape Htrim Hne Hpart.
    pose proof (str_eqb_nonempty t Hne) as Hempty.
    destruct Hshape as [Htype Htext | Htype Htext | Htype Htext | Htype Htext];
      [| apply equals_true in Htype, Hpart; rewrite Htype in Hpart;
         vm_compute in Hpart; discriminate ..].
    run_event m Htype. rewrite Htext, Htrim. run_steps. reflexivity.
Qed.

End ProviderEvents.

(** ** Lines of a provider message *)

Lemma split_no_sep (sep : N) (s : jsstring) : sep ∉ s → split sep s = [s].
Proof.
  induction s as [|c s IH]; intros Hnot; [reflexivity|].
  apply not_elem_of_cons in Hnot as [Hne Hnot]. cbn [split].
  replace (c =? sep)%N with false by (symmetry; apply N.eqb_neq; congruence).
  by rewrite IH.
Qed.

Lemma split_pieces (sep : N) (s : jsstring) :
  Forall (λ l, sep ∉ l) (split sep s).
Proof.
  induction s as [|c s IH]; cbn [split].
  - apply Forall_singleton. apply not_elem_of_nil.
  - destruct (N.eqb_spec c sep) as [->|Hne].
    + apply Forall_cons. split; [apply not_elem_of_nil | exact IH].
    + destruct (split sep s) as [|l ls].
      * apply Forall_singleton. apply not_elem_of_cons.
        split; [congruence | apply not_elem_of_nil].
      * apply Forall_cons in IH as [Hl Hls]. apply Forall_cons.
        split; [|exact Hls]. apply not_elem_of_cons. split; [congruence | exact Hl].
Qed.

Lemma trim_nil_iff (s : jsstring) :
  trim s = [] ↔ Forall (λ c, is_ws c = true) s.
Proof.
  unfold trim. induction s as [|c s IH]; [by split|].
  cbn [trimStart]. destruct (is_ws c) eqn:Hc.
  - rewrite IH. split; [by constructor | by intros [_ ?]%Forall_cons].
  - rewrite (trimEnd_cons_nonws c s Hc). split; [discriminate|].
    intros [Hws _]%Forall_cons. congruence.
Qed.

Lemma split_all_ws (sep : N) (s : jsstring) :
  Forall (λ c, is_ws c = true) s →
  Forall (Forall (λ c, is_ws c = true)) (split sep s).
Proof.
  induction s as [|c s IH]; intros Hall; cbn [split].
  - by apply Forall_singleton.
  - apply Forall_cons in Hall as [Hc Hall]. specialize (IH Hall).
    destruct (c =? sep)%N; [by apply Forall_cons|].
    destruct (split sep s) as [|l ls]; [by repeat constructor|].
    apply Forall_cons in IH as [Hl Hls]. apply Forall_cons.
    split; [by constructor | exact Hls].
Qed.

Section ProviderLines.
Context {number : Type} `{Runtime number}.

(** X22.  The lines the handler loops over contain no line break and
    are not blank.  A provider message made of white space only has no
    such line, and the handler does nothing on it. *)
Theorem nonblank_lines_are_lines (data : jsstring) (s : scope number) :
  Forall (λ l, (10%N ∉ l) ∧ trim l ≠ []) (nonblank_lines data)
  ∧ (trim data = [] →
     nonblank_lines data = [] ∧ openai_on_message data s = s).
Proof.
  unfold nonblank_lines. split.
  - apply Forall_forall. intros l Hl. apply list_elem_of_filter in Hl as [Hlen Hl].
    split.
    + pose proof (split_pieces 10 data) as Hpieces.
      rewrite Forall_forall in Hpieces. by apply Hpieces.
    + intros Hblank. rewrite Hblank in Hlen. simpl in Hlen. lia.
  - intros Hblank.
    assert (Hnone : filter (λ l, (0 < length (trim l))%nat) (split 10 data) = []).
    { destruct (filter _ _) as [|l ls] eqn:Hfilter; [reflexivity|].
      assert (Hl : l ∈ filter (λ l, (0 < length (trim l))%nat) (split 10 data))
        by (rewrite Hfilter; constructor).
      apply list_elem_of_filter in Hl as [Hlen Hl].
      pose proof (split_all_ws 10 data (proj1 (trim_nil_iff data) Hblank))
        as Hpieces.
      rewrite Forall_forall in Hpieces.
      rewrite (proj2 (trim_nil_iff l) (Hpieces l Hl)) in Hlen.
      simpl in Hlen. lia. }
    split; [exact Hnone|]. unfold openai_on_message, nonblank_lines.
    by rewrite Hnone.
Qed.

(** X21.  A provider message that holds one event and no line break,
    the usual case, is handled as that event alone: the state after the
    message is the state after the event, or the state before when the
    text is not JSON. *)
Theorem single_event_message (data : jsstring) (s : scope number) :
  10%N ∉ data → trim data ≠ [] →
  openai_on_message data s
  = match JSON_parse data with
    | Some m => (openai_event m s).2
    | None => s
    end.
Proof.
  intros Hline Hblank. unfold openai_on_message, nonblank_lines.
  rewrite (split_no_sep 10 data Hline).
  assert (Hkeep : filter (λ l, (0 < length (trim l))%nat) [data] = [data]).
  { rewrite filter_cons_True; [reflexivity|]. destruct (trim data); [done|].
    simpl. lia. }
  rewrite Hkeep. cbn [openai_lines].
  destruct (JSON_parse data) as [m|]; [|reflexivity].
  by rewrite then_skip_r.
Qed.

(** An event that never lets the loop go on ends the batch. *)
Lemma stopping_event_ends_batch (m : value number) :
  (∀ s', (openai_event m s').1 ≠ Normal) →
  ∀ (pre post : list jsstring) (line : jsstring) (s : scope number),
    JSON_parse line = Some m →
    openai_lines (pre ++ line :: post) s = openai_lines (pre ++ [line]) s.
Proof.
  intros Hstop pre post line s Hline. rewrite !openai_lines_app.
  destruct (forallb _ _); [|reflexivity].
  unfold then_. destruct (openai_lines pre s) as [[] s1]; try reflexivity.
  cbn [openai_lines]. rewrite Hline. unfold then_.
  specialize (Hstop s1). by destruct (openai_event m s1) as [[] s2].
Qed.

Lemma error_event_returns (m : value number) (s : scope number) :
  error_event m → openai_event m s = (Return, s).
Proof.
  unfold error_event. intros Herr. apply orb_true_iff in Herr.
  destruct Herr as [Htype | Htype]; run_event m Htype; reflexivity.
Qed.

(** X25.  Three kinds of line end the batch they are in, so that the
    lines after them in the same provider message are never handled: a
    [response.content_part.done] event, an error event, and the JSON
    value [null]. *)
Theorem lines_after_a_stopping_event_are_dropped
    (m : value number) (pre post : list jsstring) (line : jsstring)
    (s : scope number) :
  equals (prop m "type") "response.content_part.done" = true
  ∨ error_event m ∨ m = VNull →
  JSON_parse line = Some m →
  openai_lines (pre ++ line :: post) s = openai_lines (pre ++ [line]) s.
Proof.
  intros Hkind. apply stopping_event_ends_batch. intros s'.
  destruct Hkind as [Htype | [Herr | ->]].
  - run_event m Htype. run_steps.
    by destruct (str_eqb (part_text m) []).
  - by rewrite (error_event_returns m s' Herr).
  - done.
Qed.

End ProviderLines.

Local Open Scope string_scope.

Lemma unknown_events_are_ignored_witness :
  openai_event (H := sample_host)
    (object_value [("type", "session.created")]) (fresh_scope 5 true)
  = (Normal, fresh_scope 5 true).
Proof.
  apply (unknown_events_are_ignored (H := sample_host)).
  - discriminate.
  - discriminate.
  - repeat constructor.
Defined.

Lemma lifecycle_events_set_and_clear_the_flag_witness :
  openai_event (H := sample_host)
    (object_value [("type", "response.done")]) (fresh_scope 5 true)
  = (Normal, fresh_scope 5 false).
Proof.
  destruct (lifecycle_events_set_and_clear_the_flag (H := sample_host)
              (object_value [("type", "response.done")]) (fresh_scope 5 true))
    as [_ Hdone].
  apply Hdone. vm_compute. reflexivity.
Defined.

Lemma single_event_message_witness :
  openai_on_message (H := sample_host) (object_text text_delta_hel)
    (fresh_scope 0 false)
  = client_send (Transcript interim (js "hel")) (fresh_scope 0 false).
Proof.
  rewrite (single_event_message (H := sample_host)).
  - vm_compute. reflexivity.
  - apply (bool_decide_unpack _). vm_compute. exact I.
  - vm_compute. discriminate.
Defined.

Lemma nonblank_lines_are_lines_witness :
  openai_on_message (H := sample_host) (js "  " ++ [10%N] ++ js " ")
    (fresh_scope 0 false)
  = fresh_scope 0 false.
Proof.
  destruct (nonblank_lines_are_lines (H := sample_host)
              (js "  " ++ [10%N] ++ js " ") (fresh_scope 0 false))
    as [_ Hblank].
  apply Hblank. reflexivity.
Defined.

Lemma blank_texts_witness :
  openai_event (H := sample_host)
    (VObj [(js "type", VStr (js "response.content_part.done"));
           (js "part", VObj [(js "transcript", VStr (js "  "))])])
    (fresh_scope 0 false)
  = (Return, client_send (Transcript final []) (fresh_scope 0 false)).
Proof.
  destruct (blank_texts (H := sample_host)
              (VObj [(js "type", VStr (js "response.content_part.done"));
                     (js "part", VObj [(js "transcript", VStr (js "  "))])])
              (js "  ") (fresh_scope 0 false))
    as (_ & _ & _ & Hpart).
  apply Hpart.
  - apply content_part_done; vm_compute; reflexivity.
  - reflexivity.
  - discriminate.
  - vm_compute. reflexivity.
Defined.

Lemma lines_after_a_stopping_event_are_dropped_witness :
  openai_lines (H := table_host [(js "null", VNull)])
    ([] ++ js "null" :: [js "null"; js "later"]) (fresh_scope 0 false)
  = openai_lines (H := table_host [(js "null", VNull)])
      ([] ++ [js "null"]) (fresh_scope 0 false).
Proof.
  apply (lines_after_a_stopping_event_are_dropped
           (H := table_host [(js "null", VNull)]) VNull).
  - right. right. reflexivity.
  - vm_compute. reflexivity.
Defined.

Local Close Scope string_scope.

(** ** The encoder loses nothing *)

Lemma all_bytes_complete (n : N) : (n < 256)%N → In n Page.all_bytes.
Proof.
  intros Hn. unfold Page.all_bytes. apply in_map_iff.
  exists (N.to_nat n). split; [apply N2Nat.id|]. apply in_seq. lia.
Qed.

(** A check made on every pair of bytes holds of every pair of bytes. *)
Lemma for_all_byte_pairs (P : N → N → bool) :
  forallb (λ a, forallb (P a) Page.all_bytes) Page.all_bytes = true →
  ∀ a b : N, (a < 256)%N → (b < 256)%N → P a b = true.
Proof.
  intros Hcheck a b Ha Hb. rewrite forallb_forall in Hcheck.
  specialize (Hcheck a (all_bytes_complete a Ha)).
  rewrite forallb_forall in Hcheck. apply Hcheck, all_bytes_complete, Hb.
Qed.

Lemma b64_digit_not_pad (n : N) : (Page.b64_digit n =? 61)%N = false.
Proof.
  apply N.eqb_neq. unfold Page.b64_digit.
  destruct (N.ltb_spec n 26); [lia|]. destruct (N.ltb_spec n 52); [lia|].
  destruct (N.ltb_spec n 62); [lia|]. destruct (n =? 62)%N; lia.
Qed.

(** The first byte is read back from the first two digits ... *)
Lemma decode_first (a b : N) :
  (a < 256)%N → (b < 256)%N →
  N.lor (N.shiftl (Page.b64_value (Page.b64_digit (N.shiftr a 2))) 2)
    (N.shiftr
       (Page.b64_value
          (Page.b64_digit (N.lor (N.shiftl (N.land a 3) 4) (N.shiftr b 4))))
       4)
  = a.
Proof.
  intros Ha Hb. apply N.eqb_eq.
  revert a b Ha Hb. apply for_all_byte_pairs. vm_compute. reflexivity.
Qed.

Lemma join_nibbles (b : N) :
  (b < 256)%N → N.lor (N.shiftl (N.shiftr b 4) 4) (N.land b 15) = b.
Proof.
  intros Hb. apply N.eqb_eq.
  apply (for_all_byte_pairs
           (λ x _, N.lor (N.shiftl (N.shiftr x 4) 4) (N.land x 15) =? x)%N
           ltac:(vm_compute; reflexivity) b 0%N); lia.
Qed.

Lemma second_digit_low (a b : N) :
  (a < 256)%N → (b < 256)%N →
  N.land
    (Page.b64_value
       (Page.b64_digit (N.lor (N.shiftl (N.land a 3) 4) (N.shiftr b 4))))
    15
  = N.shiftr b 4.
Proof.
  intros Ha Hb. apply N.eqb_eq.
  revert a b Ha Hb. apply for_all_byte_pairs. vm_compute. reflexivity.
Qed.

Lemma third_digit_high (b c : N) :
  (b < 256)%N → (c < 256)%N →
  N.shiftr
    (Page.b64_value
       (Page.b64_digit (N.lor (N.shiftl (N.land b 15) 2) (N.shiftr c 6))))
    2
  = N.land b 15.
Proof.
  intros Hb Hc. apply N.eqb_eq.
  revert b c Hb Hc. apply for_all_byte_pairs. vm_compute. reflexivity.
Qed.

(** ... the second from the second and third ... *)
Lemma decode_second (a b c : N) :
  (a < 256)%N → (b < 256)%N → (c < 256)%N →
  N.lor
    (N.shiftl
       (N.land
          (Page.b64_value
             (Page.b64_digit (N.lor (N.shiftl (N.land a 3) 4) (N.shiftr b 4))))
          15) 4)
    (N.shiftr
       (Page.b64_value
          (Page.b64_digit (N.lor (N.shiftl (N.land b 15) 2) (N.shiftr c 6))))
       2)
  = b.
Proof.
  intros Ha Hb Hc.
  rewrite (second_digit_low a b Ha Hb), (third_digit_high b c Hb Hc).
  by apply join_nibbles.
Qed.

(** ... and the third from the third and fourth. *)
Lemma decode_third (b c : N) :
  (b < 256)%N → (c < 256)%N →
  N.lor
    (N.shiftl
       (N.land
          (Page.b64_value
             (Page.b64_digit (N.lor (N.shiftl (N.land b 15) 2) (N.shiftr c 6))))
          3) 6)
    (Page.b64_value (Page.b64_digit (N.land c 63)))
  = c.
Proof.
  intros Hb Hc. apply N.eqb_eq.
  revert b c Hb Hc. apply for_all_byte_pairs. vm_compute. reflexivity.
Qed.

Lemma atob_btoa (bin : jsstring) :
  Forall (λ b, (b < 256)%N) bin → Page.atob (Page.btoa bin) = bin.
Proof.
  induction bin as [| a | a b | a b c l IH] using list_triple_ind; intros Hall.
  - reflexivity.
  - apply Forall_cons in Hall as [Hall _].
    pose proof (decode_first a 0 Hall ltac:(lia)) as Ha.
    change (N.shiftr 0 4) with 0%N in Ha. rewrite N.lor_0_r in Ha.
    cbn [Page.btoa Page.atob]. cbv zeta. change (61 =? 61)%N with true.
    cbv iota. by rewrite Ha.
  - apply Forall_cons in Hall as [Ha Hall].
    apply Forall_cons in Hall as [Hall _].
    pose proof (decode_second a b 0 Ha Hall ltac:(lia)) as Hb.
    change (N.shiftr 0 6) with 0%N in Hb. rewrite N.lor_0_r in Hb.
    cbn [Page.btoa Page.atob]. cbv zeta. rewrite b64_digit_not_pad.
    change (61 =? 61)%N with true. cbv iota.
    by rewrite (decode_first a b Ha Hall), Hb.
  - apply Forall_cons in Hall as [Ha Hall].
    apply Forall_cons in Hall as [Hb Hall].
    apply Forall_cons in Hall as [Hc Hall].
    cbn [Page.btoa Page.atob app]. cbv zeta. rewrite !b64_digit_not_pad.
    cbv iota.
    by rewrite (decode_first a b Ha Hb), (decode_second a b c Ha Hb Hc),
      (decode_third b c Hb Hc), (IH Hall).
Qed.

Lemma int16_bytes_are_bytes (i16 : list Z) :
  Forall (λ b, (b < 256)%N) (concat (map Page.bytes_of_int16 i16)).
Proof.
  induction i16 as [|z l IH]; [constructor|]. cbn [map concat].
  apply Forall_app. split; [|exact IH]. unfold Page.bytes_of_int16.
  pose proof (Z.mod_pos_bound z 65536 ltac:(lia)).
  pose proof (Z.mod_pos_bound (z mod 65536) 256 ltac:(lia)).
  assert (0 ≤ z mod 65536 / 256 < 256)
    by (split; [apply Z.div_pos; lia | apply Z.div_lt_upper_bound; lia]).
  apply Forall_cons. split; [lia|].
  apply Forall_cons. split; [lia | constructor].
Qed.

Lemma samples_of_int16_bytes (i16 : list Z) :
  Forall (λ z, -32768 ≤ z ≤ 32767) i16 →
  Page.samples_of_bytes (concat (map Page.bytes_of_int16 i16)) = i16.
Proof.
  induction i16 as [|z l IH]; intros Hall; [reflexivity|].
  apply Forall_cons in Hall as [Hz Hall].
  cbn [map concat Page.bytes_of_int16 app Page.samples_of_bytes].
  rewrite (IH Hall). f_equal.
  pose proof (Z.mod_pos_bound z 65536 ltac:(lia)).
  pose proof (Z.mod_pos_bound (z mod 65536) 256 ltac:(lia)).
  assert (0 ≤ z mod 65536 / 256) by (apply Z.div_pos; lia).
  rewrite !Z2N.id by lia.
  replace (z mod 65536 mod 256 + 256 * (z mod 65536 / 256))
    with (z mod 65536) by (rewrite (Z.div_mod (z mod 65536) 256) at 1; lia).
  unfold wrap16. destruct (Z.neg_nonneg_cases z) as [Hneg | Hpos].
  - replace (z mod 65536) with (z + 65536)
      by (apply Z.mod_unique with (q := -1); lia).
    replace ((z + 65536 + 32768) mod 65536) with (z + 32768)
      by (apply Z.mod_unique with (q := 1); lia).
    lia.
  - rewrite (Z.mod_small z) by lia. rewrite Z.mod_small by lia. lia.
Qed.

(** X26.  The encoder loses nothing: two different arrays of 16-bit
    samples never encode to the same text. *)
Theorem base64FromPCM16_injective (a b : list Z) :
  Forall (λ z, -32768 ≤ z ≤ 32767) a →
  Forall (λ z, -32768 ≤ z ≤ 32767) b →
  a ≠ b → Page.base64FromPCM16 a ≠ Page.base64FromPCM16 b.
Proof.
  intros Ha Hb Hne Heq. apply Hne. rewrite !base64FromPCM16_btoa in Heq.
  apply (f_equal Page.atob) in Heq.
  rewrite !atob_btoa in Heq by apply int16_bytes_are_bytes.
  apply (f_equal Page.samples_of_bytes) in Heq.
  by rewrite !samples_of_int16_bytes in Heq.
Qed.

Lemma base64FromPCM16_injective_witness :
  Page.base64FromPCM16 [1; -2; 32767] ≠ Page.base64FromPCM16 [1; -2; 32766].
Proof.
  apply (base64FromPCM16_injective [1; -2; 32767] [1; -2; 32766]).
  - repeat constructor; lia.
  - repeat constructor; lia.
  - discriminate.
Defined.

(** X28.  Quantising is sample by sample: the frame of two chunks put
    end to end is the frame of the first followed by the frame of the
    second. *)
Theorem floatToPCM16_app {T : Type} `{JSNumber T} (a b : list T) :
  Page.floatToPCM16 (a ++ b) = Page.floatToPCM16 a ++ Page.floatToPCM16 b.
Proof. rewrite !floatToPCM16_map. apply map_app. Qed.

(** ** Configuration before the provider socket opens *)

(** X27.  When a [config] message arrives before the provider socket
    has opened, nothing is pushed at that moment, and the session update
    sent at the opening carries the language of that message, not the
    default: the provider gets one update, for the configured
    language. *)
Theorem open_after_config_uses_configured_language
    {number : Type} `{Runtime number}
    (raw : jsstring) (msg lang : value number) (s : scope number) :
  JSON_parse raw = Some msg →
  equals (prop msg "type") "config" = true →
  prop msg "language" = lang →
  truthy lang = true →
  openai_readyState s.2 = CONNECTING →
  openai_sent (client_on_message raw s).2 = openai_sent s.2
  ∧ openai_opens (client_on_message raw s)
    = (s.1,
       {| language := lang;
          openai_readyState := OPEN;
          openai_sent := openai_sent s.2 ++ [SessionUpdate lang];
          client_sent := client_sent s.2;
          openai_closed := openai_closed s.2;
          client_closed := client_closed s.2 |}).
Proof.
  intros Hparse Htype <- Htruthy Hready. run_message msg Htype.
  rewrite Htruthy.
  destruct s as [g [l ready sent csent oclosed cclosed]].
  cbn [snd openai_readyState] in Hready. subst ready. by run_branch.
Qed.

Lemma open_after_config_uses_configured_language_witness :
  openai_opens
    (client_on_message (H := sample_host) (object_text config_ko)
       (connecting_scope 0 false))
  = ({| approxB64SinceCommit := 0; activeResponse := false |},
     {| language := VStr (js "ko");
        openai_readyState := OPEN;
        openai_sent := [SessionUpdate (VStr (js "ko"))];
        client_sent := [];
        openai_closed := false;
        client_closed := false |}).
Proof.
  destruct (open_after_config_uses_configured_language (H := sample_host)
              (object_text config_ko) (object_value config_ko)
              (VStr (js "ko")) (connecting_scope 0 false))
    as (_ & Hopen).
  - vm_compute. reflexivity.
  - vm_compute. reflexivity.
  - vm_compute. reflexivity.
  - vm_compute. reflexivity.
  - reflexivity.
  - exact Hopen.
Defined.
